(** * Pod sandbox metadata store (pkg/metadata/sandboxes.go)

    A shallow embedding of the sandbox part of virtlet's metadata store and
    the properties of its read-modify-write protocol, its point read and
    its filtered listing.

    Layout of the development:
    - byte strings and their order (the order of keys in the store);
    - the effects of the code: a log of store operations and Go panics;
    - [bolt]: the key-value store the code runs on;
    - [fields]: label selectors built from a set;
    - [types]: the records of pkg/metadata/types;
    - the functions of sandboxes.go, in the order of the source;
    - lemmas on the store and on each function, then the properties. *)

From Stdlib Require Import ZArith String Ascii List Lia.
From stdpp Require Import base option list gmap strings sorting fin_maps.

Open Scope string_scope.
Open Scope list_scope.

(** ** Byte strings

    A Go [[]byte] and a Go [string] are both sequences of bytes; a Rocq
    [string] is a list of 8-bit characters, so both are modelled as
    [string]. A nil slice that the code tests against [nil] is an
    [option]. *)

Abbreviation bytes := string (only parsing).

(** [bytes.HasPrefix(s, prefix)]. *)
Definition HasPrefix (s prefix : bytes) : bool := String.prefix prefix s.

(** The slice expression [s[n:]], for [n <= len(s)]. *)
Fixpoint skip (n : nat) (s : bytes) : bytes :=
  match n, s with
  | O, _ => s
  | S n', String _ s' => skip n' s'
  | S _, EmptyString => EmptyString
  end.

(** [bytes.Compare(a, b) <= 0]: the byte-wise lexicographic order in which
    the store keeps its keys. *)
Definition bytes_le (a b : bytes) : Prop := String.leb a b = true.

#[global] Instance bytes_le_dec : RelDecision bytes_le.
Proof. intros a b. unfold bytes_le. apply _. Defined.

(** ** Effects

    Every store primitive, every call of the codec and every call of the
    caller's updater is recorded in a log, so that "does not touch the
    store" and "does not read a payload" are statements about a run. *)

Inductive Event : Type :=
| EvBegin (writable : bool)             (* db.View / db.Update opens a transaction *)
| EvCommit
| EvRollback
| EvCursor
| EvBucket (name : bytes)               (* tx.Bucket *)
| EvCreateBucket (name : bytes)         (* tx.CreateBucketIfNotExists *)
| EvDeleteBucket (name : bytes)         (* tx.DeleteBucket *)
| EvGet (bucket key : bytes)            (* bucket.Get *)
| EvPut (bucket key value : bytes)      (* bucket.Put *)
| EvMarshal                             (* json.Marshal *)
| EvUnmarshal (data : bytes)            (* json.Unmarshal *)
| EvUpdater.                            (* the updater passed to Save *)

(** A call either returns or panics (a nil pointer dereference). *)
Inductive outcome (A : Type) : Type :=
| Returns (a : A)
| Panics.
Arguments Returns {A} a.
Arguments Panics {A}.

Definition M (A : Type) : Type := (outcome A * list Event)%type.

Definition ret {A} (a : A) : M A := (Returns a, []).
Definition panic {A} : M A := (Panics, []).
Definition emit (e : Event) : M unit := (Returns tt, [e]).

Definition bind {A B} (m : M A) (f : A -> M B) : M B :=
  match m with
  | (Returns a, l1) => let (r, l2) := f a in (r, l1 ++ l2)
  | (Panics, l1) => (Panics, l1)
  end.

(** A deferred call: [e] is logged whether [m] returns or panics. *)
Definition finally {A} (m : M A) (e : Event) : M A :=
  let (r, l) := m in (r, l ++ [e]).

Definition result {A} (m : M A) : outcome A := fst m.
Definition events {A} (m : M A) : list Event := snd m.

Notation "'let*' x := m 'in' k" := (bind m (fun x => k))
  (at level 10, x pattern, m at level 100, k at level 200).
Notation "m ;;; k" := (bind m (fun _ => k))
  (at level 100, k at level 200, right associativity).

(** ** Errors

    The values of Go's [error] that flow through this file. The two
    [fmt.Errorf] messages carry the quoted ID; errors of the codec and of
    the caller's updater are foreign values the code only passes on. *)

Module bolt_errors.
Inductive t : Type :=
| ErrTxNotWritable
| ErrBucketNameRequired
| ErrBucketNotFound
| ErrIncompatibleValue
| ErrKeyRequired
| ErrKeyTooLarge
| ErrValueTooLarge.
End bolt_errors.

Inductive error : Type :=
| ErrEmptyID                        (* errors.New("Pod sandbox ID cannot be empty") *)
| ErrNotExist (podID : string)      (* fmt.Errorf("pod sandbox %q does not exist", podID) *)
| ErrNoData (podID : string)        (* fmt.Errorf("no data found for pod id %q", id) *)
| ErrBolt (e : bolt_errors.t)       (* an error of the store *)
| ErrForeign (msg : string).        (* an error of the codec or of the updater *)

(** ** The store

    github.com/boltdb/bolt, a library outside this repository, as
    sandboxes.go uses it and as its documentation states it, on an open
    database whose commits succeed. The root holds buckets only; a bucket
    holds, under each key, a value or a nested bucket. A [*bolt.Bucket]
    obtained from a transaction is the name of a top-level bucket of that
    transaction; sandboxes.go uses no bucket after it has deleted it. *)

Module bolt.
Import bolt_errors.

#[warnings="-register-all"] Inductive Item : Type :=
| Value (v : bytes)
| Nested (b : gmap bytes Item).

Abbreviation DB := (gmap bytes (gmap bytes Item)).

Record Tx : Type := { root : DB; writable : bool }.

Definition MaxKeySize : Z := 32768.
Definition MaxValueSize : Z := Z.shiftl 1 31 - 2.

Definition len (s : bytes) : Z := Z.of_nat (String.length s).

Definition setRoot (tx : Tx) (r : DB) : Tx :=
  {| root := r; writable := writable tx |}.

(** [tx.Bucket(name)]: nil when there is no such bucket. *)
Definition Bucket (tx : Tx) (name : bytes) : M (option bytes) :=
  emit (EvBucket name) ;;;
  ret (match root tx !! name with
       | Some _ => Some name
       | None => None
       end).

(** [tx.CreateBucketIfNotExists(name)]. *)
Definition CreateBucketIfNotExists (tx : Tx) (name : bytes)
  : M (Tx * (option bytes * option error)) :=
  emit (EvCreateBucket name) ;;;
  if negb (writable tx) then ret (tx, (None, Some (ErrBolt ErrTxNotWritable)))
  else if (len name =? 0)%Z then ret (tx, (None, Some (ErrBolt ErrBucketNameRequired)))
  else match root tx !! name with
       | Some _ => ret (tx, (Some name, None))
       | None => ret (setRoot tx (<[name := ∅]> (root tx)), (Some name, None))
       end.

(** [tx.DeleteBucket(name)]. *)
Definition DeleteBucket (tx : Tx) (name : bytes) : M (Tx * option error) :=
  emit (EvDeleteBucket name) ;;;
  if negb (writable tx) then ret (tx, Some (ErrBolt ErrTxNotWritable))
  else match root tx !! name with
       | Some _ => ret (setRoot tx (delete name (root tx)), None)
       | None => ret (tx, Some (ErrBolt ErrBucketNotFound))
       end.

(** [bucket.Get(key)]: nil when the key is absent or names a nested
    bucket; a nil [bucket] panics. *)
Definition Get (tx : Tx) (bucket : option bytes) (key : bytes) : M (option bytes) :=
  match bucket with
  | None => panic
  | Some b =>
    emit (EvGet b key) ;;;
    ret (match root tx !! b with
         | Some items =>
           match items !! key with
           | Some (Value v) => Some v
           | _ => None
           end
         | None => None
         end)
  end.

(** [bucket.Put(key, value)]; a nil [bucket] panics. *)
Definition Put (tx : Tx) (bucket : option bytes) (key value : bytes)
  : M (Tx * option error) :=
  match bucket with
  | None => panic
  | Some b =>
    emit (EvPut b key value) ;;;
    if negb (writable tx) then ret (tx, Some (ErrBolt ErrTxNotWritable))
    else if (len key =? 0)%Z then ret (tx, Some (ErrBolt ErrKeyRequired))
    else if (len key >? MaxKeySize)%Z then ret (tx, Some (ErrBolt ErrKeyTooLarge))
    else if (len value >? MaxValueSize)%Z then ret (tx, Some (ErrBolt ErrValueTooLarge))
    else match root tx !! b with
         | Some items =>
           match items !! key with
           | Some (Nested _) => ret (tx, Some (ErrBolt ErrIncompatibleValue))
           | _ => ret (setRoot tx (<[b := <[key := Value value]> items]> (root tx)), None)
           end
         | None => ret (tx, Some (ErrBolt ErrBucketNotFound))
         end
  end.

(** [tx.Cursor()]: the keys of the root, in byte order. The cursor is
    the list of keys from its position on; the empty list is the
    position past the last key ([k == nil]). *)
Definition Cursor (tx : Tx) : M (list bytes) :=
  emit EvCursor ;;;
  ret (merge_sort bytes_le ((map_to_list (root tx)).*1)).

(** [c.Seek(seek)]: the first key that is not below [seek]. *)
Fixpoint Seek (c : list bytes) (seek : bytes) : list bytes :=
  match c with
  | [] => []
  | k :: c' => if String.ltb k seek then Seek c' seek else c
  end.

(** [db.View(fn)]: a read-only transaction, rolled back when [fn] is
    done. What [fn] leaves in the variables it captured and the error it
    returns are the value of [fn]. *)
Definition View {A} (db : DB) (fn : Tx -> M A) : M A :=
  emit (EvBegin false) ;;;
  finally (fn {| root := db; writable := false |}) EvRollback.

(** [db.Update(fn)]: a read-write transaction, committed when [fn]
    returns nil and rolled back when it returns an error or panics. *)
Definition Update (db : DB) (fn : Tx -> M (Tx * option error)) : M (DB * option error) :=
  emit (EvBegin true) ;;;
  match fn {| root := db; writable := true |} with
  | (Returns (tx', None), l) => (Returns (root tx', None), l ++ [EvCommit])
  | (Returns (tx', Some e), l) => (Returns (db, Some e), l ++ [EvRollback])
  | (Panics, l) => (Panics, l ++ [EvRollback])
  end.
End bolt.

(** ** Label selectors

    k8s.io/apimachinery/pkg/fields: [SelectorFromSet(ls)] is the
    conjunction of one term [field = value] per entry of [ls] (no term for
    a nil or empty set), and a term matches a set when the set's value for
    the field, the empty string when the field is missing, is the term's
    value. A nil map and an empty map are both [∅]. *)

Module fields.
Abbreviation Set_ := (gmap string string).

Record Selector : Type := { terms : list (string * string) }.

Definition SelectorFromSet (ls : Set_) : Selector :=
  {| terms := map_to_list ls |}.

Definition Get (ls : Set_) (field : string) : string :=
  default "" (ls !! field).

Definition Matches (sel : Selector) (ls : Set_) : bool :=
  forallb (fun t => bool_decide (Get ls (fst t) = snd t)) (terms sel).
End fields.

(** ** The records of pkg/metadata/types *)

Module types.
(** Modelled from the spec: the declaration of [types.PodSandboxState],
    the enumerated lifecycle state of a sandbox. *)
Inductive PodSandboxState : Type :=
| PodSandboxState_READY
| PodSandboxState_NOTREADY.

#[global] Instance PodSandboxState_eq_dec : EqDecision PodSandboxState.
Proof. solve_decision. Defined.

(** Modelled from the spec: the declaration of [types.PodSandboxConfig],
    a structured value with a label map among other fields, which this
    code passes through. *)
Record PodSandboxConfig : Type := {
  Labels : gmap string string;
  ConfigRest : bytes
}.

(** Modelled from the spec: the declaration of [types.PodSandboxInfo]:
    the sandbox ID, the state, the configuration and the fields this code
    passes through. The code reaches the labels as [psi.Config.Labels];
    [Config] is [None] for a nil pointer, whose dereference panics (a
    [Config] held by value is the case where it is always [Some]). *)
Module PodSandboxInfo.
Record t : Type := {
  PodID : string;
  Config : option PodSandboxConfig;
  State : PodSandboxState;
  Rest : bytes
}.

(** The assignment [psi.PodID = id]. *)
Definition setPodID (id : string) (psi : t) : t :=
  {| PodID := id; Config := Config psi; State := State psi; Rest := Rest psi |}.
End PodSandboxInfo.

(** Modelled from the spec: the declaration of [types.PodSandboxFilter]:
    an ID (unset when empty), a state (unset when nil) and a label set
    the selector is built from. *)
Module PodSandboxFilter.
Record t : Type := {
  Id : string;
  State : option PodSandboxState;
  LabelSelector : gmap string string
}.
End PodSandboxFilter.
End types.

Import types.

(** ** sandboxes.go *)

Definition sandboxKeyPrefix : bytes := "sandboxes/".
Definition sandboxDataBucket : bytes := "data".

(** [append(sandboxKeyPrefix, []byte(sandboxID)...)]: the bytes of the
    prefix followed by those of the ID. Every caller uses the key before
    it builds another one for a different ID, so the bytes it reads are
    these whether or not [append] allocates. *)
Definition sandboxKey (sandboxID : string) : bytes :=
  sandboxKeyPrefix +:+ sandboxID.

(** The accessor. Its [client] field points to the one store all accessors
    share; the state of that store is passed to the methods and returned by
    those that change it. *)
Record podSandboxMeta : Type := { id : string }.

Definition GetID (m : podSandboxMeta) : string := id m.

(** [b.PodSandbox(podID)]. *)
Definition PodSandbox (podID : string) : podSandboxMeta := {| id := podID |}.

Section Sandboxes.

(** The codec, encoding/json at the type [*types.PodSandboxInfo]:
    [json_Marshal psi] is [json.Marshal(psi)] for a non-nil [psi], and
    [json_Unmarshal data] is what [json.Unmarshal(data, &p)] leaves in a
    [p] that was nil, with the error it returns. *)
Variable json_Marshal : PodSandboxInfo.t -> bytes * option error.
Variable json_Unmarshal : bytes -> option PodSandboxInfo.t * option error.

Definition Marshal (psi : PodSandboxInfo.t) : M (bytes * option error) :=
  emit EvMarshal ;;; ret (json_Marshal psi).

Definition Unmarshal (data : bytes) : M (option PodSandboxInfo.t * option error) :=
  emit (EvUnmarshal data) ;;; ret (json_Unmarshal data).

Definition getSandboxBucket (tx : bolt.Tx) (podID : string) (create optional : bool)
  : M (bolt.Tx * (option bytes * option error)) :=
  let key := sandboxKey podID in
  if create then
    let* (tx, (bucket, err)) := bolt.CreateBucketIfNotExists tx key in
    match err with
    | Some e => ret (tx, (None, Some e))
    | None => ret (tx, (bucket, None))
    end
  else
    let* bucket := bolt.Bucket tx key in
    match bucket with
    | None =>
      if negb optional then ret (tx, (None, Some (ErrNotExist podID)))
      else ret (tx, (bucket, None))
    | Some _ => ret (tx, (bucket, None))
    end.

(** [psi] is nil at every call, so the function is given no [psi] and
    returns the one it leaves. *)
Definition retrieveSandboxFromDB (tx : bolt.Tx) (bucket : option bytes)
  : M (option PodSandboxInfo.t * option error) :=
  let* data := bolt.Get tx bucket sandboxDataBucket in
  match data with
  | None => ret (None, None)
  | Some data => Unmarshal data
  end.

Definition saveSandboxToDB (tx : bolt.Tx) (bucket : option bytes) (psi : PodSandboxInfo.t)
  : M (bolt.Tx * option error) :=
  let* (data, err) := Marshal psi in
  match err with
  | Some e => ret (tx, Some e)
  | None => bolt.Put tx bucket sandboxDataBucket data
  end.

Definition Retrieve (m : podSandboxMeta) (db : bolt.DB)
  : M (option PodSandboxInfo.t * option error) :=
  if bool_decide (GetID m = "") then ret (None, Some ErrEmptyID)
  else
    let* (psi, err) :=
      bolt.View db (fun tx =>
        let* (tx, (bucket, err)) := getSandboxBucket tx (GetID m) false false in
        match err with
        | Some e => ret (None, Some e)
        | None => retrieveSandboxFromDB tx bucket
        end) in
    match err, psi with
    | None, Some p => ret (Some (PodSandboxInfo.setPodID (GetID m) p), err)
    | _, _ => ret (psi, err)
    end.

Definition Save (m : podSandboxMeta)
    (updater : option PodSandboxInfo.t -> option PodSandboxInfo.t * option error)
    (db : bolt.DB) : M (bolt.DB * option error) :=
  if bool_decide (GetID m = "") then ret (db, Some ErrEmptyID)
  else
    bolt.Update db (fun tx =>
      let key := sandboxKey (GetID m) in
      let* (tx, (bucket, err)) := getSandboxBucket tx (GetID m) true false in
      match err with
      | Some e => ret (tx, Some e)
      | None =>
        let* (current, err) := retrieveSandboxFromDB tx bucket in
        match err with
        | Some e => ret (tx, Some e)
        | None =>
          emit EvUpdater ;;;
          let (newData, err) := updater current in
          match err with
          | Some e => ret (tx, Some e)
          | None =>
            match newData with
            | None => bolt.DeleteBucket tx key
            | Some newData => saveSandboxToDB tx bucket newData
            end
          end
        end
      end).

Definition filterPodSandboxMeta (psm : podSandboxMeta)
    (filter : option PodSandboxFilter.t) (db : bolt.DB) : M (bool * option error) :=
  match filter with
  | None => ret (true, None)
  | Some filter =>
    if bool_decide (PodSandboxFilter.Id filter <> "")
       && bool_decide (GetID psm <> PodSandboxFilter.Id filter)
    then ret (false, None)
    else
      let* (psi, err) := Retrieve psm db in
      match err with
      | Some e => ret (false, Some e)
      | None =>
        match psi with
        | None => ret (false, Some (ErrNoData (GetID psm)))
        | Some psi =>
          if match PodSandboxFilter.State filter with
             | Some s => bool_decide (PodSandboxInfo.State psi <> s)
             | None => false
             end
          then ret (false, None)
          else
            let sel := fields.SelectorFromSet (PodSandboxFilter.LabelSelector filter) in
            match PodSandboxInfo.Config psi with
            | None => panic
            | Some config =>
              if negb (fields.Matches sel (Labels config)) then ret (false, None)
              else ret (true, None)
            end
        end
      end
  end.

(** The loop of ListPodSandboxes from the cursor position [c] on, with
    [result] as collected so far; it returns [result] as the loop leaves
    it and the error the transaction function returns. *)
Fixpoint scan (filter : option PodSandboxFilter.t) (db : bolt.DB)
    (c : list bytes) (result : list podSandboxMeta)
  : M (list podSandboxMeta * option error) :=
  match c with
  | [] => ret (result, None)
  | k :: c' =>
    if HasPrefix k sandboxKeyPrefix then
      let psm := {| id := skip (String.length sandboxKeyPrefix) k |} in
      let* (fv, err) := filterPodSandboxMeta psm filter db in
      match err with
      | Some e => ret (result, Some e)
      | None => scan filter db c' (if fv then result ++ [psm] else result)
      end
    else ret (result, None)
  end.

(** The collection is a list; a nil slice is the empty list. *)
Definition ListPodSandboxes (filter : option PodSandboxFilter.t) (db : bolt.DB)
  : M (list podSandboxMeta * option error) :=
  let* (result, err) :=
    bolt.View db (fun tx =>
      let* c := bolt.Cursor tx in
      scan filter db (bolt.Seek c sandboxKeyPrefix) []) in
  match err with
  | Some e => ret ([], Some e)
  | None => ret (result, None)
  end.

End Sandboxes.

(** ** A small codec and small stores, to run the functions on

    [testcodec] stands in for encoding/json on concrete inputs: it writes a
    record's state and whether it has a configuration, reads back what it
    writes, reads ["null"] as a nil record and rejects everything else. *)

Module testcodec.
Definition config0 : PodSandboxConfig := {| Labels := ∅; ConfigRest := "" |}.

Definition info (c : option PodSandboxConfig) (s : PodSandboxState) : PodSandboxInfo.t :=
  {| PodSandboxInfo.PodID := ""; PodSandboxInfo.Config := c;
     PodSandboxInfo.State := s; PodSandboxInfo.Rest := "" |}.

Definition Marshal (psi : PodSandboxInfo.t) : bytes * option error :=
  (match PodSandboxInfo.State psi, PodSandboxInfo.Config psi with
   | PodSandboxState_READY, Some _ => "{R}"
   | PodSandboxState_NOTREADY, Some _ => "{N}"
   | PodSandboxState_READY, None => "{R-}"
   | PodSandboxState_NOTREADY, None => "{N-}"
   end, None).

Definition Unmarshal (data : bytes) : option PodSandboxInfo.t * option error :=
  if String.eqb data "null" then (None, None)
  else if String.eqb data "{R}" then (Some (info (Some config0) PodSandboxState_READY), None)
  else if String.eqb data "{N}" then (Some (info (Some config0) PodSandboxState_NOTREADY), None)
  else if String.eqb data "{R-}" then (Some (info None PodSandboxState_READY), None)
  else if String.eqb data "{N-}" then (Some (info None PodSandboxState_NOTREADY), None)
  else (None, Some (ErrForeign "invalid character")).

Definition ready : PodSandboxInfo.t := info (Some config0) PodSandboxState_READY.

(** A store with one sandbox whose payload does not decode. *)
Definition corrupt (i : string) : bolt.DB :=
  {[ sandboxKey i := {[ sandboxDataBucket := bolt.Value "garbage" ]} ]}.

(** A store with one region that has no payload slot. *)
Definition hollow (i : string) : bolt.DB := {[ sandboxKey i := ∅ ]}.

(** A store with one sandbox holding [ready]. *)
Definition one (i : string) : bolt.DB :=
  {[ sandboxKey i := {[ sandboxDataBucket := bolt.Value "{R}" ]} ]}.

(** The sandbox "a" holds [ready]; the payload of "b" does not decode. *)
Definition mixed : bolt.DB :=
  <[ sandboxKey "b" := {[ sandboxDataBucket := bolt.Value "garbage" ]} ]> (one "a").

(** A store with one region whose payload slot is a nested bucket. *)
Definition blocked (i : string) : bolt.DB :=
  {[ sandboxKey i := {[ sandboxDataBucket := bolt.Nested ∅ ]} ]}.

(** The sandbox "a" holds [ready]; the region of "b" has no payload. *)
Definition partial : bolt.DB := <[ sandboxKey "b" := ∅ ]> (one "a").

Definition put (R : PodSandboxInfo.t)
  : option PodSandboxInfo.t -> option PodSandboxInfo.t * option error :=
  fun _ => (Some R, None).

Definition remove : option PodSandboxInfo.t -> option PodSandboxInfo.t * option error :=
  fun _ => (None, None).

Definition fail (e : error)
  : option PodSandboxInfo.t -> option PodSandboxInfo.t * option error :=
  fun _ => (None, Some e).
End testcodec.

(** ** Reading a store, for the statements *)

(** What [bucket.Get(sandboxDataBucket)] reads in a region: the payload
    slot, absent when the key is missing or names a nested bucket. *)
Definition payload (items : gmap bytes bolt.Item) : option bytes :=
  match items !! sandboxDataBucket with
  | Some (bolt.Value v) => Some v
  | _ => None
  end.

(** The keys of a store in the order of its cursor. *)
Definition keys (db : bolt.DB) : list bytes :=
  merge_sort bytes_le ((map_to_list db).*1).

(** The keys the loop of ListPodSandboxes visits from the cursor position
    [c]: those up to the first one without the prefix. *)
Fixpoint visited (c : list bytes) : list bytes :=
  match c with
  | [] => []
  | k :: c' => if HasPrefix k sandboxKeyPrefix then k :: visited c' else []
  end.

(** The keys one listing visits. *)
Definition scanned (db : bolt.DB) : list bytes :=
  visited (bolt.Seek (keys db) sandboxKeyPrefix).

(** The accessor the loop builds for the key [k]. *)
Definition accessor (k : bytes) : podSandboxMeta :=
  {| id := skip (String.length sandboxKeyPrefix) k |}.

(** A filter that is not nil and constrains nothing. *)
Definition unsetFilter : PodSandboxFilter.t :=
  {| PodSandboxFilter.Id := "";
     PodSandboxFilter.State := None;
     PodSandboxFilter.LabelSelector := ∅ |}.

(** A filter that constrains the ID only. *)
Definition idFilter (i : string) : PodSandboxFilter.t :=
  {| PodSandboxFilter.Id := i;
     PodSandboxFilter.State := None;
     PodSandboxFilter.LabelSelector := ∅ |}.

(** The log has no read of a payload slot and no call of the decoder. *)
Definition readsNoPayload (l : list Event) : Prop :=
  forall e, e ∈ l ->
    match e with
    | EvGet _ _ | EvUnmarshal _ => False
    | _ => True
    end.

(** ** The functions without their log

    What [Retrieve] returns and what [Save] does to the store, as functions
    of the store alone; [Retrieve_result] and [Save_result] below show that
    the code computes them. *)

Section Outcomes.
Variable json_Marshal : PodSandboxInfo.t -> bytes * option error.
Variable json_Unmarshal : bytes -> option PodSandboxInfo.t * option error.

(** The payload bytes stored for the sandbox [i]. *)
Definition stored (db : bolt.DB) (i : string) : option bytes :=
  match db !! sandboxKey i with
  | Some items => payload items
  | None => None
  end.

Definition retrieveOutcome (i : string) (db : bolt.DB)
  : option PodSandboxInfo.t * option error :=
  if bool_decide (i = "") then (None, Some ErrEmptyID)
  else
    match db !! sandboxKey i with
    | None => (None, Some (ErrNotExist i))
    | Some items =>
      match payload items with
      | None => (None, None)
      | Some data =>
        match json_Unmarshal data with
        | (Some p, None) => (Some (PodSandboxInfo.setPodID i p), None)
        | r => r
        end
      end
    end.

Definition saveOutcome (i : string)
    (updater : option PodSandboxInfo.t -> option PodSandboxInfo.t * option error)
    (db : bolt.DB) : bolt.DB * option error :=
  if bool_decide (i = "") then (db, Some ErrEmptyID)
  else
    let (current, err) :=
      match stored db i with
      | Some data => json_Unmarshal data
      | None => (None, None)
      end in
    match err with
    | Some e => (db, Some e)
    | None =>
      let (newData, err) := updater current in
      match err with
      | Some e => (db, Some e)
      | None =>
        match newData with
        | None => (delete (sandboxKey i) db, None)
        | Some newData =>
          let (data, err) := json_Marshal newData in
          match err with
          | Some e => (db, Some e)
          | None =>
            if (bolt.len data >? bolt.MaxValueSize)%Z
            then (db, Some (ErrBolt bolt_errors.ErrValueTooLarge))
            else
              let items := default ∅ (db !! sandboxKey i) in
              match items !! sandboxDataBucket with
              | Some (bolt.Nested _) =>
                (db, Some (ErrBolt bolt_errors.ErrIncompatibleValue))
              | _ =>
                (<[sandboxKey i := <[sandboxDataBucket := bolt.Value data]> items]> db,
                 None)
              end
          end
        end
      end
    end.

(** What the filter predicate returns for a filter that is not nil. *)
Definition filterOutcome (i : string) (filter : PodSandboxFilter.t) (db : bolt.DB)
  : outcome (bool * option error) :=
  if bool_decide (PodSandboxFilter.Id filter <> "")
     && bool_decide (i <> PodSandboxFilter.Id filter)
  then Returns (false, None)
  else
    match retrieveOutcome i db with
    | (_, Some e) => Returns (false, Some e)
    | (None, None) => Returns (false, Some (ErrNoData i))
    | (Some psi, None) =>
      if match PodSandboxFilter.State filter with
         | Some s => bool_decide (PodSandboxInfo.State psi <> s)
         | None => false
         end
      then Returns (false, None)
      else
        match PodSandboxInfo.Config psi with
        | None => Panics
        | Some config =>
          Returns
            (fields.Matches
               (fields.SelectorFromSet (PodSandboxFilter.LabelSelector filter))
               (Labels config),
             None)
        end
    end.

(** A record the store can hold: it encodes, within the size the store
    takes, to bytes that decode to the same record up to the ID field. *)
Definition validRecord (R : PodSandboxInfo.t) : Prop :=
  exists data R',
    json_Marshal R = (data, None) /\
    (bolt.len data <= bolt.MaxValueSize)%Z /\
    json_Unmarshal data = (Some R', None) /\
    PodSandboxInfo.setPodID "" R' = PodSandboxInfo.setPodID "" R.

(** The payload stored for [i], if there is one, decodes without error. *)
Definition storedDecodes (db : bolt.DB) (i : string) : Prop :=
  match stored db i with
  | Some data => (json_Unmarshal data).2 = None
  | None => True
  end.

(** The payload slot of [i] is not taken by a nested bucket. *)
Definition slotWritable (db : bolt.DB) (i : string) : Prop :=
  match db !! sandboxKey i with
  | Some items =>
    match items !! sandboxDataBucket with
    | Some (bolt.Nested _) => False
    | _ => True
    end
  | None => True
  end.

(** The region of [i] holds a record that decodes and has a
    configuration. *)
Definition holdsRecord (db : bolt.DB) (i : string) : Prop :=
  exists data psi config,
    stored db i = Some data /\
    json_Unmarshal data = (Some psi, None) /\
    PodSandboxInfo.Config psi = Some config.
End Outcomes.

(** ** Further readings of a store *)

Section Readings.
Variable json_Marshal : PodSandboxInfo.t -> bytes * option error.
Variable json_Unmarshal : bytes -> option PodSandboxInfo.t * option error.

(** What [retrieveSandboxFromDB] leaves in [current] and returns, in the
    transaction of Save: the decoded payload of [i], nil without error
    when the region or the slot is new or absent. *)
Definition current (db : bolt.DB) (i : string)
  : option PodSandboxInfo.t * option error :=
  match stored db i with
  | Some data => json_Unmarshal data
  | None => (None, None)
  end.

(** The three checks of the predicate on a record that was retrieved. *)
Definition recordMatches (i : string) (filter : PodSandboxFilter.t)
    (psi : PodSandboxInfo.t) (config : PodSandboxConfig) : bool :=
  bool_decide (PodSandboxFilter.Id filter = "" \/ i = PodSandboxFilter.Id filter)
  && match PodSandboxFilter.State filter with
     | Some s => bool_decide (PodSandboxInfo.State psi = s)
     | None => true
     end
  && fields.Matches (fields.SelectorFromSet (PodSandboxFilter.LabelSelector filter))
       (Labels config).

(** Whether the listing with [filter] keeps the key [k], on a store whose
    regions hold records. *)
Definition selects (filter : option PodSandboxFilter.t) (db : bolt.DB) (k : bytes) : bool :=
  match filter with
  | None => true
  | Some f =>
    match (current db (id (accessor k))).1 with
    | Some psi =>
      match PodSandboxInfo.Config psi with
      | Some config => recordMatches (id (accessor k)) f psi config
      | None => false
      end
    | None => false
    end
  end.

(** Every region under the prefix has a non-empty ID and holds a payload
    that decodes, without error, to a record. *)
Definition consistent (db : bolt.DB) : Prop :=
  forall i, is_Some (db !! sandboxKey i) ->
    i <> "" /\ exists data psi,
      stored db i = Some data /\ json_Unmarshal data = (Some psi, None).

(** The log of Save. *)
Definition saveLog (i : string)
    (updater : option PodSandboxInfo.t -> option PodSandboxInfo.t * option error)
    (db : bolt.DB) : list Event :=
  if bool_decide (i = "") then []
  else
    [EvBegin true; EvCreateBucket (sandboxKey i); EvGet (sandboxKey i) sandboxDataBucket]
    ++ match stored db i with
       | Some data => [EvUnmarshal data]
       | None => []
       end
    ++ match (current db i).2 with
       | Some _ => [EvRollback]
       | None =>
         EvUpdater ::
         match updater (current db i).1 with
         | (_, Some _) => [EvRollback]
         | (None, None) => [EvDeleteBucket (sandboxKey i); EvCommit]
         | (Some newData, None) =>
           EvMarshal ::
           match json_Marshal newData with
           | (_, Some _) => [EvRollback]
           | (data, None) =>
             [EvPut (sandboxKey i) sandboxDataBucket data;
              match (saveOutcome json_Marshal json_Unmarshal i updater db).2 with
              | None => EvCommit
              | Some _ => EvRollback
              end]
           end
         end
       end.

(** The log of Retrieve. *)
Definition retrieveLog (i : string) (db : bolt.DB) : list Event :=
  if bool_decide (i = "") then []
  else
    [EvBegin false; EvBucket (sandboxKey i)]
    ++ match db !! sandboxKey i with
       | None => []
       | Some items =>
         EvGet (sandboxKey i) sandboxDataBucket ::
         match payload items with
         | Some data => [EvUnmarshal data]
         | None => []
         end
       end
    ++ [EvRollback].

(** The events that open or close a transaction. *)
Definition isTxEvent (e : Event) : bool :=
  match e with
  | EvBegin _ | EvCommit | EvRollback => true
  | _ => false
  end.

(** The events that change a transaction's data. *)
Definition isWrite (e : Event) : bool :=
  match e with
  | EvCreateBucket _ | EvDeleteBucket _ | EvPut _ _ _ | EvCommit | EvBegin true => true
  | _ => false
  end.

Definition isUpdater (e : Event) : bool :=
  match e with
  | EvUpdater => true
  | _ => false
  end.
End Readings.

(** Stores for the state filter: "a" is ready, "b" is not. *)
Module teststores.
Definition notReadyBucket : gmap bytes bolt.Item :=
  {[ sandboxDataBucket := bolt.Value "{N}" ]}.

Definition two : bolt.DB := <[ sandboxKey "b" := notReadyBucket ]> (testcodec.one "a").

(** The regions of [two] and a region named by the prefix alone. *)
Definition unnamed : bolt.DB := <[ sandboxKeyPrefix := ∅ ]> two.

(** A store without sandboxes. *)
Definition others : bolt.DB := {[ "containers/x" := ∅; "sandboxes" := ∅ ]}.

Definition readyFilter : PodSandboxFilter.t :=
  {| PodSandboxFilter.Id := "";
     PodSandboxFilter.State := Some PodSandboxState_READY;
     PodSandboxFilter.LabelSelector := ∅ |}.

(** An updater that keeps a ready record and fails on anything else. *)
Definition keepReady (current : option PodSandboxInfo.t)
  : option PodSandboxInfo.t * option error :=
  match current with
  | Some psi =>
    match PodSandboxInfo.State psi with
    | PodSandboxState_READY =>
      (Some (testcodec.info (Some testcodec.config0) PodSandboxState_NOTREADY), None)
    | PodSandboxState_NOTREADY => (None, Some (ErrForeign "not ready"))
    end
  | None => (None, Some (ErrForeign "no record"))
  end.
End teststores.

(** The functions with the codec of [testcodec]. *)
Abbreviation tSave := (Save testcodec.Marshal testcodec.Unmarshal) (only parsing).
Abbreviation tRetrieve := (Retrieve testcodec.Unmarshal) (only parsing).
Abbreviation tList := (ListPodSandboxes testcodec.Unmarshal) (only parsing).

(** * Lemmas *)

(** ** The effect monad *)

Lemma result_bind {A B} (m : M A) (f : A -> M B) :
  result (bind m f) =
  match result m with
  | Returns a => result (f a)
  | Panics => Panics
  end.
Proof.
  destruct m as [[a|] l]; simpl; [|reflexivity].
  destruct (f a); reflexivity.
Qed.

Lemma events_bind {A B} (m : M A) (f : A -> M B) :
  events (bind m f) =
  match result m with
  | Returns a => events m ++ events (f a)
  | Panics => events m
  end.
Proof.
  destruct m as [[a|] l]; simpl; [|reflexivity].
  destruct (f a); reflexivity.
Qed.

Lemma result_finally {A} (m : M A) e : result (finally m e) = result m.
Proof. destruct m; reflexivity. Qed.

Lemma events_finally {A} (m : M A) e : events (finally m e) = events m ++ [e].
Proof. destruct m; reflexivity. Qed.

Lemma result_View {A} db (fn : bolt.Tx -> M A) :
  result (bolt.View db fn) = result (fn {| bolt.root := db; bolt.writable := false |}).
Proof. unfold bolt.View. rewrite result_bind. simpl. apply result_finally. Qed.

Lemma events_View {A} db (fn : bolt.Tx -> M A) :
  events (bolt.View db fn) =
  EvBegin false :: events (fn {| bolt.root := db; bolt.writable := false |}) ++ [EvRollback].
Proof. unfold bolt.View. rewrite events_bind. simpl. by rewrite events_finally. Qed.

(** ** Keys *)

Lemma append_nil s : "" +:+ s = s.
Proof. reflexivity. Qed.

Lemma append_cons a p s : String a p +:+ s = String a (p +:+ s).
Proof. reflexivity. Qed.

Lemma sandboxKey_inj x y : sandboxKey x = sandboxKey y -> x = y.
Proof. unfold sandboxKey. apply (inj (String.append sandboxKeyPrefix)). Qed.

Lemma sandboxKey_ne x y : x <> y -> sandboxKey x <> sandboxKey y.
Proof. intros Hne Heq. apply Hne, sandboxKey_inj, Heq. Qed.

Lemma sandboxKey_len x : (bolt.len (sandboxKey x) =? 0)%Z = false.
Proof. reflexivity. Qed.

Lemma prefix_append p s : String.prefix p (p +:+ s) = true.
Proof.
  induction p as [|a p IH]; [by destruct s|].
  rewrite append_cons. simpl.
  destruct (ascii_dec a a); [exact IH | congruence].
Qed.

Lemma skip_append p s : skip (String.length p) (p +:+ s) = s.
Proof. induction p as [|a p IH]; [by destruct s | exact IH]. Qed.

Lemma prefix_skip p k : String.prefix p k = true -> k = p +:+ skip (String.length p) k.
Proof.
  revert k. induction p as [|a p IH]; intros k H.
  - by destruct k.
  - destruct k as [|c k]; simpl in H; [discriminate|].
    destruct (ascii_dec a c) as [->|]; [|discriminate].
    rewrite append_cons. simpl. by rewrite <- IH.
Qed.

Lemma HasPrefix_sandboxKey x : HasPrefix (sandboxKey x) sandboxKeyPrefix = true.
Proof. apply prefix_append. Qed.

Lemma skip_sandboxKey x : skip (String.length sandboxKeyPrefix) (sandboxKey x) = x.
Proof. apply skip_append. Qed.

Lemma HasPrefix_key k :
  HasPrefix k sandboxKeyPrefix = true ->
  k = sandboxKey (skip (String.length sandboxKeyPrefix) k).
Proof. apply prefix_skip. Qed.

(** ** The order of keys *)

Lemma ascii_compare_refl a : Ascii.compare a a = Eq.
Proof. unfold Ascii.compare. apply N.compare_refl. Qed.

Lemma ascii_compare_trans c a b d :
  Ascii.compare a b = c -> Ascii.compare b d = c -> Ascii.compare a d = c.
Proof.
  unfold Ascii.compare. destruct c; intros H1 H2.
  - apply N.compare_eq_iff in H1, H2. rewrite H1, H2. apply N.compare_refl.
  - rewrite N.compare_lt_iff in *. lia.
  - rewrite N.compare_gt_iff in *. lia.
Qed.

Lemma string_compare_lt_trans a b c :
  String.compare a b = Lt -> String.compare b c = Lt -> String.compare a c = Lt.
Proof.
  revert b c. induction a as [|x a IH]; intros [|y b] [|z c]; simpl; try congruence.
  destruct (Ascii.compare x y) eqn:Hxy; try discriminate;
    destruct (Ascii.compare y z) eqn:Hyz; try discriminate; intros H1 H2.
  - rewrite (ascii_compare_trans Eq x y z Hxy Hyz). eauto.
  - apply Ascii.compare_eq_iff in Hxy. subst. by rewrite Hyz.
  - apply Ascii.compare_eq_iff in Hyz. subst. by rewrite Hxy.
  - by rewrite (ascii_compare_trans Lt x y z Hxy Hyz).
Qed.

#[global] Instance bytes_le_total : Total bytes_le.
Proof. intros a b. apply String.leb_total. Qed.

#[global] Instance bytes_le_trans : Transitive bytes_le.
Proof.
  intros a b c. unfold bytes_le, String.leb. intros H1 H2.
  destruct (String.compare a b) eqn:Hab; try discriminate;
    destruct (String.compare b c) eqn:Hbc; try discriminate.
  - apply String.compare_eq_iff in Hab. subst. by rewrite Hbc.
  - apply String.compare_eq_iff in Hab. subst. by rewrite Hbc.
  - apply String.compare_eq_iff in Hbc. subst. by rewrite Hab.
  - by rewrite (string_compare_lt_trans a b c Hab Hbc).
Qed.

(** A key that has the prefix is not below it. *)
Lemma prefix_not_below p k : String.prefix p k = true -> String.ltb k p = false.
Proof.
  unfold String.ltb. revert k. induction p as [|a p IH]; intros k H.
  - by destruct k.
  - destruct k as [|c k]; simpl in H; [discriminate|].
    destruct (ascii_dec a c) as [->|]; [|discriminate].
    simpl. rewrite ascii_compare_refl. by apply IH.
Qed.

(** The keys with a given prefix are contiguous in the order: a key that
    is not below the prefix and is below a key with the prefix has the
    prefix. *)
Lemma prefix_between p y z :
  String.ltb y p = false -> bytes_le y z -> String.prefix p z = true ->
  String.prefix p y = true.
Proof.
  unfold String.ltb, bytes_le, String.leb.
  revert y z. induction p as [|a p IH]; intros y z Hy Hz Hp.
  - by destruct y.
  - destruct z as [|c z]; simpl in Hp; [discriminate|].
    destruct (ascii_dec a c) as [<-|]; [|discriminate].
    destruct y as [|b y]; simpl in Hy, Hz; [discriminate|].
    simpl.
    destruct (Ascii.compare b a) eqn:Hba; try discriminate.
    apply Ascii.compare_eq_iff in Hba. subst b.
    destruct (ascii_dec a a); [|congruence].
    by apply (IH y z).
Qed.

(** ** The cursor *)

Lemma visited_filter_above l :
  StronglySorted bytes_le l ->
  Forall (fun k => String.ltb k sandboxKeyPrefix = false) l ->
  visited l = filter (fun k => HasPrefix k sandboxKeyPrefix = true) l.
Proof.
  induction 1 as [|k l Hs IH Hk]; intros Hab; [reflexivity|].
  apply Forall_cons in Hab as [Hka Hla]. simpl.
  rewrite filter_cons. destruct (HasPrefix k sandboxKeyPrefix) eqn:Hp.
  - rewrite decide_True by reflexivity. f_equal. by apply IH.
  - rewrite decide_False by discriminate.
    symmetry. clear IH. induction l as [|z l IHl]; [reflexivity|].
    apply Forall_cons in Hk as [Hkz Hkl].
    apply Forall_cons in Hla as [_ Hla].
    apply StronglySorted_inv in Hs as [Hs _].
    rewrite filter_cons, decide_False; [by apply IHl|].
    intros Hz. unfold HasPrefix in *.
    by rewrite (prefix_between _ k z Hka Hkz Hz) in Hp.
Qed.

Lemma visited_Seek l :
  StronglySorted bytes_le l ->
  visited (bolt.Seek l sandboxKeyPrefix) =
  filter (fun k => HasPrefix k sandboxKeyPrefix = true) l.
Proof.
  induction 1 as [|k l Hs IH Hk]; [reflexivity|].
  cbn [bolt.Seek].
  destruct (String.ltb k sandboxKeyPrefix) eqn:Hlt.
  - rewrite filter_cons, decide_False; [exact IH|].
    intros Hp. apply prefix_not_below in Hp. congruence.
  - apply visited_filter_above.
    + by constructor.
    + constructor; [exact Hlt|].
      eapply Forall_impl; [exact Hk|]. intros z Hkz.
      unfold String.ltb, bytes_le, String.leb in *.
      destruct (String.compare z sandboxKeyPrefix) eqn:Hz; try reflexivity.
      destruct (String.compare k z) eqn:Hkz'; try discriminate.
      * apply String.compare_eq_iff in Hkz'. subst. by rewrite Hz in Hlt.
      * by rewrite (string_compare_lt_trans _ _ _ Hkz' Hz) in Hlt.
Qed.

Lemma elem_of_keys db k : k ∈ keys db <-> is_Some (db !! k).
Proof.
  unfold keys. rewrite merge_sort_Permutation, list_elem_of_fmap. split.
  - intros [[k' v] [-> Hin]]. apply elem_of_map_to_list in Hin. by exists v.
  - intros [v Hv]. exists (k, v). split; [reflexivity|]. by apply elem_of_map_to_list.
Qed.

Lemma NoDup_keys db : NoDup (keys db).
Proof. unfold keys. rewrite merge_sort_Permutation. apply NoDup_fst_map_to_list. Qed.

(** One listing visits exactly the keys of the store that have the
    prefix, each once. *)
Lemma elem_of_scanned db k :
  k ∈ scanned db <-> HasPrefix k sandboxKeyPrefix = true /\ is_Some (db !! k).
Proof.
  unfold scanned. rewrite visited_Seek by (apply StronglySorted_merge_sort; apply _).
  by rewrite list_elem_of_filter, elem_of_keys.
Qed.

Lemma NoDup_scanned db : NoDup (scanned db).
Proof.
  unfold scanned. rewrite visited_Seek by (apply StronglySorted_merge_sort; apply _).
  apply NoDup_filter, NoDup_keys.
Qed.

Lemma scanned_sandbox db i : sandboxKey i ∈ scanned db <-> is_Some (db !! sandboxKey i).
Proof.
  rewrite elem_of_scanned. split; [by intros [_ H]|].
  intros H. split; [apply HasPrefix_sandboxKey | exact H].
Qed.

Lemma accessor_sandboxKey i : accessor (sandboxKey i) = PodSandbox i.
Proof. unfold accessor. by rewrite skip_sandboxKey. Qed.

Lemma visited_prefix c k : k ∈ visited c -> HasPrefix k sandboxKeyPrefix = true.
Proof.
  induction c as [|x c IH]; simpl; [by intros ?%elem_of_nil|].
  destruct (HasPrefix x sandboxKeyPrefix) eqn:Hx; [|by intros ?%elem_of_nil].
  intros [->|Hin]%elem_of_cons; auto.
Qed.

(** ** Retrieve and Save *)

Ltac run :=
  unfold Save, Retrieve, bolt.Update, bolt.View, getSandboxBucket,
    retrieveSandboxFromDB, saveSandboxToDB, bolt.CreateBucketIfNotExists,
    bolt.Bucket, bolt.Get, bolt.Put, bolt.DeleteBucket, Marshal, Unmarshal,
    bolt.setRoot, finally, bind, ret, emit, panic, result, events, GetID;
  simpl.

Ltac split_call f := let r := fresh "r" in let e := fresh "e" in
  destruct f as [r [e|]]; simpl; try done.

Section Facts.
Variable json_Marshal : PodSandboxInfo.t -> bytes * option error.
Variable json_Unmarshal : bytes -> option PodSandboxInfo.t * option error.

Lemma Retrieve_result i db :
  result (Retrieve json_Unmarshal (PodSandbox i) db) =
  Returns (retrieveOutcome json_Unmarshal i db).
Proof.
  unfold retrieveOutcome, payload. run.
  case_bool_decide; simpl; [done|].
  destruct (db !! sandboxKey i) as [items|] eqn:Hdb; simpl; [|done].
  rewrite ?Hdb.
  destruct (items !! sandboxDataBucket) as [[v|b]|] eqn:Hit; simpl; try done.
  by destruct (json_Unmarshal v) as [[p|] [e|]].
Qed.

Lemma Save_result i u db :
  result (Save json_Marshal json_Unmarshal (PodSandbox i) u db) =
  Returns (saveOutcome json_Marshal json_Unmarshal i u db).
Proof.
  unfold saveOutcome, stored, payload. run.
  case_bool_decide; simpl; [done|].
  destruct (db !! sandboxKey i) as [items|] eqn:Hdb; simpl.
  - rewrite ?Hdb.
    destruct (items !! sandboxDataBucket) as [[v|b]|] eqn:Hit; simpl;
      [destruct (json_Unmarshal v) as [cur [e|]]; simpl; [done|] | | ];
      (match goal with |- context [u ?c] => destruct (u c) as [[nd|] [e|]] end;
       simpl; try done;
       destruct (json_Marshal nd) as [data [e|]]; simpl; [done|];
       destruct (bolt.len data >? bolt.MaxValueSize)%Z; simpl; [done|];
       by rewrite ?Hdb, ?Hit).
  - rewrite lookup_insert_eq. simpl. rewrite lookup_empty.
    destruct (u None) as [[nd|] [e|]]; simpl; try done.
    + destruct (json_Marshal nd) as [data [e|]]; simpl; [done|].
      destruct (bolt.len data >? bolt.MaxValueSize)%Z; simpl; [done|].
      rewrite ?lookup_insert_eq, ?lookup_empty. simpl. by rewrite insert_insert_eq.
    + rewrite ?lookup_insert_eq. simpl. rewrite delete_insert_eq.
      by rewrite (delete_id db) by exact Hdb.
Qed.

(** Save writes nothing when it returns an error. *)
Lemma saveOutcome_error i u db db' e :
  saveOutcome json_Marshal json_Unmarshal i u db = (db', Some e) -> db' = db.
Proof.
  unfold saveOutcome. case_bool_decide; [congruence|].
  destruct (match stored db i with Some d => json_Unmarshal d | None => (None, None) end)
    as [cur [e1|]]; [congruence|].
  destruct (u cur) as [[nd|] [e2|]]; try congruence.
  destruct (json_Marshal nd) as [data [e3|]]; [congruence|].
  destruct (bolt.len data >? bolt.MaxValueSize)%Z; [congruence|].
  destruct (default ∅ (db !! sandboxKey i) !! sandboxDataBucket) as [[v|b]|]; congruence.
Qed.

(** Save leaves every key but the one of its sandbox as it was. *)
Lemma saveOutcome_frame i u db k :
  k <> sandboxKey i ->
  (saveOutcome json_Marshal json_Unmarshal i u db).1 !! k = db !! k.
Proof.
  intros Hk. unfold saveOutcome. case_bool_decide; [done|].
  destruct (match stored db i with Some d => json_Unmarshal d | None => (None, None) end)
    as [cur [e1|]]; [done|].
  destruct (u cur) as [[nd|] [e2|]]; try done.
  - destruct (json_Marshal nd) as [data [e3|]]; [done|].
    destruct (bolt.len data >? bolt.MaxValueSize)%Z; [done|].
    destruct (default ∅ (db !! sandboxKey i) !! sandboxDataBucket) as [[v|b]|];
      simpl; try done; by rewrite lookup_insert_ne.
  - simpl. by rewrite lookup_delete_ne.
Qed.

(** Retrieve depends on the region of its sandbox only. *)
Lemma retrieveOutcome_local i db db' :
  db' !! sandboxKey i = db !! sandboxKey i ->
  retrieveOutcome json_Unmarshal i db' = retrieveOutcome json_Unmarshal i db.
Proof. intros H. unfold retrieveOutcome. by rewrite H. Qed.

(** ** The filter predicate and the scan *)

Lemma filter_result i filter db :
  result (filterPodSandboxMeta json_Unmarshal (PodSandbox i) (Some filter) db) =
  filterOutcome json_Unmarshal i filter db.
Proof.
  unfold filterPodSandboxMeta, filterOutcome. simpl.
  destruct (bool_decide (PodSandboxFilter.Id filter <> "")
            && bool_decide (i <> PodSandboxFilter.Id filter)); [done|].
  rewrite result_bind, Retrieve_result.
  destruct (retrieveOutcome json_Unmarshal i db) as [[psi|] [e|]]; try done.
  destruct (match PodSandboxFilter.State filter with
            | Some s => bool_decide (PodSandboxInfo.State psi <> s)
            | None => false
            end); [done|].
  destruct (PodSandboxInfo.Config psi) as [config|]; [|done].
  by destruct (fields.Matches _ _).
Qed.

Lemma scan_result_cons filter db k c res :
  result (scan json_Unmarshal filter db (k :: c) res) =
  if HasPrefix k sandboxKeyPrefix then
    match result (filterPodSandboxMeta json_Unmarshal (accessor k) filter db) with
    | Returns (fv, Some e) => Returns (res, Some e)
    | Returns (fv, None) =>
      result (scan json_Unmarshal filter db c (if fv then res ++ [accessor k] else res))
    | Panics => Panics
    end
  else Returns (res, None).
Proof.
  cbn [scan]. fold (accessor k).
  destruct (HasPrefix k sandboxKeyPrefix); [|done].
  rewrite result_bind.
  destruct (result (filterPodSandboxMeta json_Unmarshal (accessor k) filter db))
    as [[fv [e|]]|]; done.
Qed.

(** A nil filter: every visited key is collected, without a store
    operation. *)
Lemma scan_nil_filter db c res :
  scan json_Unmarshal None db c res = ret (res ++ (accessor <$> visited c), None).
Proof.
  revert res. induction c as [|k c IH]; intros res; simpl.
  - by rewrite app_nil_r.
  - destruct (HasPrefix k sandboxKeyPrefix); simpl; [|by rewrite app_nil_r].
    fold (accessor k). rewrite IH. unfold ret. by rewrite <- app_assoc.
Qed.

(** When the predicate rejects every visited key without a store
    operation, the scan collects nothing and logs nothing. *)
Lemma scan_none_match filter db c res :
  (forall k, k ∈ visited c ->
     filterPodSandboxMeta json_Unmarshal (accessor k) filter db = ret (false, None)) ->
  scan json_Unmarshal filter db c res = ret (res, None).
Proof.
  revert res. induction c as [|k c IH]; intros res Hall; cbn [scan]; [done|].
  cbn [visited] in Hall. destruct (HasPrefix k sandboxKeyPrefix); [|done].
  fold (accessor k). rewrite Hall by apply list_elem_of_here.
  unfold bind, ret at 1. rewrite IH; [done|].
  intros k' Hk'. by apply Hall, list_elem_of_further.
Qed.

(** When the predicate accepts every visited key, the scan collects all
    of them. *)
Lemma scan_all_match filter db c res :
  (forall k, k ∈ visited c ->
     result (filterPodSandboxMeta json_Unmarshal (accessor k) filter db)
     = Returns (true, None)) ->
  result (scan json_Unmarshal filter db c res)
  = Returns (res ++ (accessor <$> visited c), None).
Proof.
  revert res. induction c as [|k c IH]; intros res Hall.
  - simpl. by rewrite app_nil_r.
  - rewrite scan_result_cons. simpl in *.
    destruct (HasPrefix k sandboxKeyPrefix); [|by rewrite app_nil_r].
    rewrite Hall by apply list_elem_of_here.
    rewrite IH; [by rewrite <- app_assoc|].
    intros k' Hk'. by apply Hall, list_elem_of_further.
Qed.

(** The scan stops at the first visited key for which the predicate
    returns an error, and returns that error. *)
Lemma scan_abort filter db c res pre k post fv e :
  visited c = pre ++ k :: post ->
  (forall k', k' ∈ pre -> exists fv',
     result (filterPodSandboxMeta json_Unmarshal (accessor k') filter db)
     = Returns (fv', None)) ->
  result (filterPodSandboxMeta json_Unmarshal (accessor k) filter db)
  = Returns (fv, Some e) ->
  exists res', result (scan json_Unmarshal filter db c res) = Returns (res', Some e).
Proof.
  revert res pre. induction c as [|x c IH]; intros res pre Hv Hpre Hk.
  - by destruct pre.
  - rewrite scan_result_cons. simpl in Hv.
    destruct (HasPrefix x sandboxKeyPrefix); [|by destruct pre].
    destruct pre as [|y pre]; simpl in Hv; injection Hv as -> Hv.
    + rewrite Hk. by exists res.
    + destruct (Hpre y) as [fv' Hy]; [apply list_elem_of_here|].
      rewrite Hy. eapply IH; [exact Hv| |exact Hk].
      intros k' Hk'. by apply Hpre, list_elem_of_further.
Qed.

Lemma ListPodSandboxes_result filter db :
  result (ListPodSandboxes json_Unmarshal filter db) =
  match result (scan json_Unmarshal filter db (bolt.Seek (keys db) sandboxKeyPrefix) []) with
  | Returns (res, Some e) => Returns ([], Some e)
  | Returns (res, None) => Returns (res, None)
  | Panics => Panics
  end.
Proof.
  unfold ListPodSandboxes. rewrite result_bind, result_View.
  unfold bolt.Cursor. rewrite !result_bind. simpl. fold (keys db).
  destruct (result (scan _ _ _ _ _)) as [[res [e|]]|]; done.
Qed.

Lemma ListPodSandboxes_events filter db res :
  result (scan json_Unmarshal filter db (bolt.Seek (keys db) sandboxKeyPrefix) [])
  = Returns res ->
  events (ListPodSandboxes json_Unmarshal filter db) =
  EvBegin false :: EvCursor ::
    events (scan json_Unmarshal filter db (bolt.Seek (keys db) sandboxKeyPrefix) [])
    ++ [EvRollback].
Proof.
  intros Hres. unfold ListPodSandboxes.
  rewrite events_bind, result_View, events_View.
  unfold bolt.Cursor. rewrite !result_bind, !events_bind. simpl. fold (keys db).
  rewrite Hres. destruct res as [res [e|]]; simpl; by rewrite app_nil_r.
Qed.

End Facts.

(** * Properties *)

Section Properties.
Variable json_Marshal : PodSandboxInfo.t -> bytes * option error.
Variable json_Unmarshal : bytes -> option PodSandboxInfo.t * option error.

Lemma Retrieve_local i db db' :
  db' !! sandboxKey i = db !! sandboxKey i ->
  Retrieve json_Unmarshal (PodSandbox i) db' = Retrieve json_Unmarshal (PodSandbox i) db.
Proof.
  intros H. run. case_bool_decide; [done|]. rewrite H.
  destruct (db !! sandboxKey i) eqn:E; simpl; by rewrite ?H, ?E.
Qed.

Lemma setPodID_change i R R' :
  PodSandboxInfo.setPodID "" R' = PodSandboxInfo.setPodID "" R ->
  PodSandboxInfo.setPodID i R' = PodSandboxInfo.setPodID i R.
Proof. destruct R, R'. unfold PodSandboxInfo.setPodID. simpl. congruence. Qed.

Lemma stored_insert i db items data :
  stored (<[sandboxKey i := <[sandboxDataBucket := bolt.Value data]> items]> db) i
  = Some data.
Proof. unfold stored, payload. by rewrite !lookup_insert_eq. Qed.

Lemma retrieveOutcome_stored i db data :
  i <> "" -> stored db i = Some data ->
  retrieveOutcome json_Unmarshal i db =
  match json_Unmarshal data with
  | (Some p, None) => (Some (PodSandboxInfo.setPodID i p), None)
  | r => r
  end.
Proof.
  intros Hi. unfold retrieveOutcome, stored.
  rewrite bool_decide_eq_false_2 by exact Hi.
  destruct (db !! sandboxKey i); [|done]. by intros ->.
Qed.

(** C6 (empty-ID rejection): on the accessor bound to the empty ID,
    Retrieve and Save both return the error "Pod sandbox ID cannot be
    empty" (the invalid-argument outcome) with an empty log: no
    transaction is opened, no store primitive runs and the updater is not
    called; Save returns the store it was given. *)
Theorem empty_id_rejected db u :
  Retrieve json_Unmarshal (PodSandbox "") db = (Returns (None, Some ErrEmptyID), [])
  /\ Save json_Marshal json_Unmarshal (PodSandbox "") u db
     = (Returns (db, Some ErrEmptyID), []).
Proof. split; reflexivity. Qed.

(** C5 (the two kinds of absence on Retrieve): for a non-empty ID, when
    the region does not exist Retrieve returns no record and the error
    "pod sandbox ... does not exist" (the not-found outcome); when the
    region exists and its payload slot is absent Retrieve returns no
    record and no error. *)
Theorem Retrieve_absence i db :
  i <> "" ->
  (db !! sandboxKey i = None ->
   result (Retrieve json_Unmarshal (PodSandbox i) db)
   = Returns (None, Some (ErrNotExist i)))
  /\ (forall items,
        db !! sandboxKey i = Some items -> payload items = None ->
        result (Retrieve json_Unmarshal (PodSandbox i) db) = Returns (None, None)).
Proof.
  intros Hi. rewrite Retrieve_result. unfold retrieveOutcome.
  rewrite bool_decide_eq_false_2 by exact Hi. split.
  - by intros ->.
  - by intros items -> ->.
Qed.

(** C3 (delete via updater): for a non-empty ID whose region exists and
    holds a payload that decodes to a record, Save with an updater that
    returns (nil, nil) returns no error and leaves the store with the
    whole region removed, and Retrieve on that store returns the
    not-found error. *)
Theorem delete_via_updater i db items data r u :
  i <> "" ->
  db !! sandboxKey i = Some items ->
  payload items = Some data ->
  json_Unmarshal data = (Some r, None) ->
  (forall current, u current = (None, None)) ->
  exists db',
    result (Save json_Marshal json_Unmarshal (PodSandbox i) u db) = Returns (db', None)
    /\ db' = delete (sandboxKey i) db
    /\ db' !! sandboxKey i = None
    /\ result (Retrieve json_Unmarshal (PodSandbox i) db')
       = Returns (None, Some (ErrNotExist i)).
Proof.
  intros Hi Hdb Hp Hdec Hu. exists (delete (sandboxKey i) db).
  rewrite Save_result, Retrieve_result. unfold saveOutcome, retrieveOutcome, stored.
  rewrite bool_decide_eq_false_2 by exact Hi.
  rewrite Hdb, Hp, Hdec, Hu, lookup_delete_eq. done.
Qed.

(** C4 (idempotent delete): for a non-empty ID that has no region, Save
    with an updater that returns (nil, nil) returns no error and leaves
    the store as it was, so without a region for the ID; done again on
    the store it leaves, it does the same. *)
Theorem delete_absent_is_noop i db u :
  i <> "" ->
  db !! sandboxKey i = None ->
  (forall current, u current = (None, None)) ->
  exists db',
    result (Save json_Marshal json_Unmarshal (PodSandbox i) u db) = Returns (db', None)
    /\ db' = db
    /\ db' !! sandboxKey i = None
    /\ result (Save json_Marshal json_Unmarshal (PodSandbox i) u db') = Returns (db', None).
Proof.
  intros Hi Hdb Hu. exists db.
  assert (result (Save json_Marshal json_Unmarshal (PodSandbox i) u db)
          = Returns (db, None)) as HS.
  { rewrite Save_result. unfold saveOutcome, stored.
    rewrite bool_decide_eq_false_2 by exact Hi.
    rewrite Hdb, Hu. by rewrite delete_id. }
  done.
Qed.

(** C10 (frame): for distinct non-empty IDs x and y, Save through the
    accessor of x, whatever the updater and whatever the result, returns
    a store in which the region of y is the one of the store before, and
    Retrieve through the accessor of y runs on the two stores alike. *)
Theorem Save_frame x y u db :
  x <> "" -> y <> "" -> x <> y ->
  exists db' err,
    result (Save json_Marshal json_Unmarshal (PodSandbox x) u db) = Returns (db', err)
    /\ db' !! sandboxKey y = db !! sandboxKey y
    /\ Retrieve json_Unmarshal (PodSandbox y) db'
       = Retrieve json_Unmarshal (PodSandbox y) db.
Proof.
  intros _ _ Hxy. rewrite Save_result.
  pose proof (saveOutcome_frame json_Marshal json_Unmarshal x u db (sandboxKey y)) as Hfr.
  destruct (saveOutcome json_Marshal json_Unmarshal x u db) as [db' err].
  simpl in Hfr. exists db', err.
  assert (db' !! sandboxKey y = db !! sandboxKey y) as Hy.
  { apply Hfr. apply sandboxKey_ne. congruence. }
  split; [done|]. split; [exact Hy|]. by apply Retrieve_local.
Qed.

Lemma scanned_accessor db k :
  k ∈ scanned db ->
  exists i, k = sandboxKey i /\ accessor k = PodSandbox i /\ is_Some (db !! sandboxKey i).
Proof.
  intros [Hp Hk]%elem_of_scanned.
  exists (skip (String.length sandboxKeyPrefix) k).
  rewrite <- (HasPrefix_key k Hp). done.
Qed.

Lemma elem_of_listed db i :
  PodSandbox i ∈ accessor <$> scanned db <-> is_Some (db !! sandboxKey i).
Proof.
  rewrite list_elem_of_fmap. split.
  - intros [k [Hk Hin]]. apply scanned_accessor in Hin as [j [-> [Hj Hdb]]].
    rewrite Hj in Hk. by injection Hk as ->.
  - intros Hdb. exists (sandboxKey i). rewrite accessor_sandboxKey.
    split; [done|]. by apply scanned_sandbox.
Qed.

Lemma filter_unset_holds i db :
  i <> "" -> holdsRecord json_Unmarshal db i ->
  result (filterPodSandboxMeta json_Unmarshal (PodSandbox i) (Some unsetFilter) db)
  = Returns (true, None).
Proof.
  intros Hi (data & psi & config & Hst & Hdec & Hcfg).
  rewrite filter_result. unfold filterOutcome. simpl.
  rewrite (retrieveOutcome_stored _ _ _ Hi Hst), Hdec. simpl. by rewrite Hcfg.
Qed.

(** The two errors the predicate returns for a key that passes the ID
    check: no payload, and a payload that does not decode. *)
Lemma filter_no_data i filter db items :
  i <> "" ->
  PodSandboxFilter.Id filter = "" \/ PodSandboxFilter.Id filter = i ->
  db !! sandboxKey i = Some items -> payload items = None ->
  result (filterPodSandboxMeta json_Unmarshal (PodSandbox i) (Some filter) db)
  = Returns (false, Some (ErrNoData i)).
Proof.
  intros Hi Hid Hdb Hp. rewrite filter_result. unfold filterOutcome, retrieveOutcome.
  rewrite (bool_decide_eq_false_2 (i = "")) by exact Hi. rewrite Hdb, Hp.
  destruct Hid as [-> | ->].
  - by rewrite (bool_decide_eq_false_2 ("" <> "")) by auto.
  - rewrite (bool_decide_eq_false_2 (i <> i)) by auto. by rewrite andb_false_r.
Qed.

Lemma filter_decode_error i filter db data p e :
  i <> "" ->
  PodSandboxFilter.Id filter = "" \/ PodSandboxFilter.Id filter = i ->
  stored db i = Some data -> json_Unmarshal data = (p, Some e) ->
  result (filterPodSandboxMeta json_Unmarshal (PodSandbox i) (Some filter) db)
  = Returns (false, Some e).
Proof.
  intros Hi Hid Hst Hdec. rewrite filter_result. unfold filterOutcome.
  rewrite (retrieveOutcome_stored _ _ _ Hi Hst), Hdec.
  destruct Hid as [-> | ->].
  - rewrite (bool_decide_eq_false_2 ("" <> "")) by auto. by destruct p.
  - rewrite (bool_decide_eq_false_2 (i <> i)) by auto. rewrite andb_false_r.
    by destruct p.
Qed.

(** C8 (ID short-circuit): on a store with no region for the ID "zzz",
    ListPodSandboxes with a filter whose ID is "zzz" returns the empty
    collection and no error, and its log is the opening of the read
    transaction, the cursor and the end of the transaction: no payload
    slot is read and nothing is decoded, whatever the bytes stored for
    the other sandboxes. *)
Theorem id_short_circuit filter db :
  PodSandboxFilter.Id filter = "zzz" ->
  db !! sandboxKey "zzz" = None ->
  ListPodSandboxes json_Unmarshal (Some filter) db
  = (Returns ([], None), [EvBegin false; EvCursor; EvRollback])
  /\ readsNoPayload (events (ListPodSandboxes json_Unmarshal (Some filter) db)).
Proof.
  intros Hid Hdb.
  assert (ListPodSandboxes json_Unmarshal (Some filter) db
          = (Returns ([], None), [EvBegin false; EvCursor; EvRollback])) as HL.
  { unfold ListPodSandboxes, bolt.View, bolt.Cursor. simpl. fold (keys db).
    rewrite scan_none_match; [done|].
    intros k Hk. fold (scanned db) in Hk.
    apply scanned_accessor in Hk as [i [-> [-> Hi]]].
    unfold filterPodSandboxMeta. rewrite Hid. simpl.
    rewrite bool_decide_eq_true_2; [done|].
    intros ->. rewrite Hdb in Hi. by destruct Hi. }
  split; [exact HL|]. rewrite HL. simpl.
  intros e He. repeat (apply elem_of_cons in He as [->|He]; [done|]).
  by apply elem_of_nil in He.
Qed.

(** C9 (the scan aborts on the first error): when, among the keys one
    listing visits, the predicate returns without error on those before
    the key k and returns the error e on k, ListPodSandboxes returns e
    with the nil collection; and a key that passes the ID check has the
    predicate return "no data found for pod id ..." when its region has
    no payload slot, and the decoder's error when its payload does not
    decode. *)
Theorem list_aborts_on_first_error filter db :
  (forall pre k post fv e,
     scanned db = pre ++ k :: post ->
     (forall k', k' ∈ pre -> exists fv',
        result (filterPodSandboxMeta json_Unmarshal (accessor k') filter db)
        = Returns (fv', None)) ->
     result (filterPodSandboxMeta json_Unmarshal (accessor k) filter db)
     = Returns (fv, Some e) ->
     result (ListPodSandboxes json_Unmarshal filter db) = Returns ([], Some e))
  /\ (forall i f items,
        i <> "" ->
        PodSandboxFilter.Id f = "" \/ PodSandboxFilter.Id f = i ->
        db !! sandboxKey i = Some items -> payload items = None ->
        result (filterPodSandboxMeta json_Unmarshal (PodSandbox i) (Some f) db)
        = Returns (false, Some (ErrNoData i)))
  /\ (forall i f data p e,
        i <> "" ->
        PodSandboxFilter.Id f = "" \/ PodSandboxFilter.Id f = i ->
        stored db i = Some data -> json_Unmarshal data = (p, Some e) ->
        result (filterPodSandboxMeta json_Unmarshal (PodSandbox i) (Some f) db)
        = Returns (false, Some e)).
Proof.
  split; [|split].
  - intros pre k post fv e Hsc Hpre Hk. rewrite ListPodSandboxes_result.
    destruct (scan_abort json_Unmarshal filter db _ [] pre k post fv e Hsc Hpre Hk)
      as [res' ->]. done.
  - intros. by eapply filter_no_data.
  - intros. by eapply filter_decode_error.
Qed.

(** C7, as amended (nil and unset filters): with a nil filter the
    predicate returns a match for every accessor, without error and with
    an empty log, and ListPodSandboxes returns, without error and without
    reading a payload, the accessors of exactly the regions under the
    prefix. With a filter that is not nil and constrains nothing, the
    predicate returns a match for a sandbox with a non-empty ID whose
    region holds a record that decodes and has a configuration, and
    ListPodSandboxes returns the same collection without error when every
    region under the prefix is of that kind. *)
Theorem nil_and_unset_filter db :
  (forall psm, filterPodSandboxMeta json_Unmarshal psm None db = ret (true, None))
  /\ ListPodSandboxes json_Unmarshal None db
     = (Returns (accessor <$> scanned db, None), [EvBegin false; EvCursor; EvRollback])
  /\ (forall i, PodSandbox i ∈ accessor <$> scanned db <-> is_Some (db !! sandboxKey i))
  /\ (forall i,
        i <> "" -> holdsRecord json_Unmarshal db i ->
        result (filterPodSandboxMeta json_Unmarshal (PodSandbox i) (Some unsetFilter) db)
        = Returns (true, None))
  /\ ((forall i, is_Some (db !! sandboxKey i) ->
         i <> "" /\ holdsRecord json_Unmarshal db i) ->
      result (ListPodSandboxes json_Unmarshal (Some unsetFilter) db)
      = Returns (accessor <$> scanned db, None)).
Proof.
  split; [done|]. split; [|split; [|split]].
  - unfold ListPodSandboxes, bolt.View, bolt.Cursor. simpl. fold (keys db).
    by rewrite scan_nil_filter.
  - apply elem_of_listed.
  - intros i. apply filter_unset_holds.
  - intros Hall. rewrite ListPodSandboxes_result, scan_all_match; [done|].
    intros k Hk. fold (scanned db) in Hk.
    apply scanned_accessor in Hk as [i [-> [-> Hi]]].
    destruct (Hall i Hi). by apply filter_unset_holds.
Qed.

(** C1, as amended (round trip): for a non-empty ID i and a valid record
    R, when the payload stored for i, if any, decodes without error and
    the payload slot of i is not a nested bucket, Save with an updater
    that returns (R, nil) returns no error, and Retrieve on the store it
    leaves returns, without error, R with its ID field set to i. *)
Theorem Save_Retrieve_roundtrip i R u db :
  i <> "" ->
  validRecord json_Marshal json_Unmarshal R ->
  storedDecodes json_Unmarshal db i ->
  slotWritable db i ->
  (forall current, u current = (Some R, None)) ->
  exists db',
    result (Save json_Marshal json_Unmarshal (PodSandbox i) u db) = Returns (db', None)
    /\ result (Retrieve json_Unmarshal (PodSandbox i) db')
       = Returns (Some (PodSandboxInfo.setPodID i R), None).
Proof.
  intros Hi (data & R' & Hm & Hlen & Hdec & Heq) Hst Hw Hu.
  rewrite Save_result. unfold saveOutcome.
  rewrite bool_decide_eq_false_2 by exact Hi.
  unfold storedDecodes in Hst.
  assert (exists cur, match stored db i with
                      | Some d => json_Unmarshal d
                      | None => (None, None)
                      end = (cur, None)) as [cur ->].
  { destruct (stored db i) as [d|]; [|by eexists].
    destruct (json_Unmarshal d) as [c e]. simpl in Hst. subst e. by eexists. }
  rewrite Hu, Hm.
  assert ((bolt.len data >? bolt.MaxValueSize)%Z = false) as -> by lia.
  unfold slotWritable in Hw. simpl.
  exists (<[sandboxKey i := <[sandboxDataBucket := bolt.Value data]>
                               (default ∅ (db !! sandboxKey i))]> db).
  split.
  - destruct (db !! sandboxKey i) as [items|]; simpl.
    + destruct (items !! sandboxDataBucket) as [[v|b]|]; [reflexivity|done|reflexivity].
    + rewrite lookup_empty. reflexivity.
  - rewrite Retrieve_result.
    rewrite (retrieveOutcome_stored _ _ data Hi) by apply stored_insert.
    rewrite Hdec. by rewrite (setPodID_change i _ _ Heq).
Qed.

(** C2, as amended (updater error): for a non-empty ID and an updater
    that returns the error e, Save returns an error and the store it was
    given, so a region that did not exist before does not exist after;
    and when the payload stored for the ID, if any, decodes without
    error, the error Save returns is e. *)
Theorem updater_error_is_atomic i u e db :
  i <> "" ->
  (forall current, (u current).2 = Some e) ->
  (exists e', result (Save json_Marshal json_Unmarshal (PodSandbox i) u db)
              = Returns (db, Some e'))
  /\ (storedDecodes json_Unmarshal db i ->
      result (Save json_Marshal json_Unmarshal (PodSandbox i) u db)
      = Returns (db, Some e)).
Proof.
  intros Hi Hu. rewrite Save_result. unfold saveOutcome, storedDecodes.
  rewrite bool_decide_eq_false_2 by exact Hi.
  destruct (match stored db i with
            | Some d => json_Unmarshal d
            | None => (None, None)
            end) as [cur [e1|]] eqn:Hcur.
  - split; [by eexists|].
    destruct (stored db i) as [d|]; [|done].
    rewrite Hcur. simpl. done.
  - specialize (Hu cur). destruct (u cur) as [nd err]. simpl in Hu. subst err.
    split; [by eexists | done].
Qed.

End Properties.

(** * The properties on concrete stores *)

Import testcodec.

Lemma ready_valid : validRecord testcodec.Marshal testcodec.Unmarshal ready.
Proof.
  exists "{R}", ready. split; [reflexivity|]. split; [|split; reflexivity].
  vm_compute. discriminate.
Defined.

Lemma one_holds (i : string) : holdsRecord testcodec.Unmarshal (one i) i.
Proof.
  exists "{R}", ready, config0. split; [|split; reflexivity].
  unfold stored, one, payload. by rewrite !lookup_singleton_eq.
Defined.

Lemma Save_Retrieve_roundtrip_witness :
  exists db',
    result (Save testcodec.Marshal testcodec.Unmarshal (PodSandbox "a") (put ready) (one "a"))
    = Returns (db', None)
    /\ result (Retrieve testcodec.Unmarshal (PodSandbox "a") db')
       = Returns (Some (PodSandboxInfo.setPodID "a" ready), None).
Proof.
  apply (Save_Retrieve_roundtrip testcodec.Marshal testcodec.Unmarshal
           "a" ready (put ready) (one "a")).
  - discriminate.
  - exact ready_valid.
  - vm_compute. reflexivity.
  - vm_compute. exact I.
  - reflexivity.
Defined.

(** The round trip fails on a store whose payload for the ID does not
    decode: Save returns the decoder's error and writes nothing, and
    Retrieve returns that error too. It also fails when the payload slot
    is a nested bucket: Save returns the store's error. *)
Lemma Save_Retrieve_roundtrip_counterexample :
  validRecord testcodec.Marshal testcodec.Unmarshal ready
  /\ result (Save testcodec.Marshal testcodec.Unmarshal (PodSandbox "a") (put ready)
               (corrupt "a"))
     = Returns (corrupt "a", Some (ErrForeign "invalid character"))
  /\ result (Retrieve testcodec.Unmarshal (PodSandbox "a") (corrupt "a"))
     = Returns (None, Some (ErrForeign "invalid character"))
  /\ result (Save testcodec.Marshal testcodec.Unmarshal (PodSandbox "a") (put ready)
               (blocked "a"))
     = Returns (blocked "a", Some (ErrBolt bolt_errors.ErrIncompatibleValue)).
Proof. split; [exact ready_valid|]. repeat split; vm_compute; reflexivity. Qed.

Lemma updater_error_is_atomic_witness :
  result (Save testcodec.Marshal testcodec.Unmarshal (PodSandbox "a")
            (fail (ErrForeign "boom")) (one "a"))
  = Returns (one "a", Some (ErrForeign "boom")).
Proof.
  apply (updater_error_is_atomic testcodec.Marshal testcodec.Unmarshal
           "a" (fail (ErrForeign "boom")) (ErrForeign "boom") (one "a")).
  - discriminate.
  - reflexivity.
  - vm_compute. reflexivity.
Defined.

(** On a store whose payload for the ID does not decode, Save returns the
    decoder's error, not the updater's: the updater is not called. *)
Lemma updater_error_counterexample :
  Save testcodec.Marshal testcodec.Unmarshal (PodSandbox "a")
    (fail (ErrForeign "boom")) (corrupt "a")
  = (Returns (corrupt "a", Some (ErrForeign "invalid character")),
     [EvBegin true; EvCreateBucket "sandboxes/a"; EvGet "sandboxes/a" "data";
      EvUnmarshal "garbage"; EvRollback])
  /\ ErrForeign "invalid character" <> ErrForeign "boom".
Proof. split; [vm_compute; reflexivity | discriminate]. Qed.

Lemma delete_via_updater_witness :
  exists db',
    result (Save testcodec.Marshal testcodec.Unmarshal (PodSandbox "a") remove (one "a"))
    = Returns (db', None)
    /\ db' = delete (sandboxKey "a") (one "a")
    /\ db' !! sandboxKey "a" = None
    /\ result (Retrieve testcodec.Unmarshal (PodSandbox "a") db')
       = Returns (None, Some (ErrNotExist "a")).
Proof.
  apply (delete_via_updater testcodec.Marshal testcodec.Unmarshal
           "a" (one "a") {[ sandboxDataBucket := bolt.Value "{R}" ]} "{R}" ready remove).
  - discriminate.
  - vm_compute. reflexivity.
  - vm_compute. reflexivity.
  - reflexivity.
  - reflexivity.
Defined.

Lemma delete_absent_is_noop_witness :
  exists db',
    result (Save testcodec.Marshal testcodec.Unmarshal (PodSandbox "a") remove (one "b"))
    = Returns (db', None)
    /\ db' = one "b"
    /\ db' !! sandboxKey "a" = None
    /\ result (Save testcodec.Marshal testcodec.Unmarshal (PodSandbox "a") remove db')
       = Returns (db', None).
Proof.
  apply (delete_absent_is_noop testcodec.Marshal testcodec.Unmarshal "a" (one "b") remove).
  - discriminate.
  - vm_compute. reflexivity.
  - reflexivity.
Defined.

Lemma Retrieve_absence_witness :
  result (Retrieve testcodec.Unmarshal (PodSandbox "b") (hollow "a"))
  = Returns (None, Some (ErrNotExist "b"))
  /\ result (Retrieve testcodec.Unmarshal (PodSandbox "a") (hollow "a"))
     = Returns (None, None).
Proof.
  split.
  - apply (Retrieve_absence testcodec.Unmarshal "b" (hollow "a")).
    + discriminate.
    + vm_compute. reflexivity.
  - apply (proj2 (Retrieve_absence testcodec.Unmarshal "a" (hollow "a") ltac:(discriminate)) ∅).
    + vm_compute. reflexivity.
    + vm_compute. reflexivity.
Defined.

Lemma id_short_circuit_witness :
  ListPodSandboxes testcodec.Unmarshal (Some (idFilter "zzz")) mixed
  = (Returns ([], None), [EvBegin false; EvCursor; EvRollback])
  /\ readsNoPayload
       (events (ListPodSandboxes testcodec.Unmarshal (Some (idFilter "zzz")) mixed)).
Proof.
  apply (id_short_circuit testcodec.Unmarshal (idFilter "zzz") mixed).
  - reflexivity.
  - vm_compute. reflexivity.
Defined.

Lemma list_aborts_on_first_error_witness :
  result (ListPodSandboxes testcodec.Unmarshal (Some unsetFilter) partial)
  = Returns ([], Some (ErrNoData "b"))
  /\ result (filterPodSandboxMeta testcodec.Unmarshal (PodSandbox "b") (Some unsetFilter)
               partial)
     = Returns (false, Some (ErrNoData "b"))
  /\ result (filterPodSandboxMeta testcodec.Unmarshal (PodSandbox "b") (Some unsetFilter)
               mixed)
     = Returns (false, Some (ErrForeign "invalid character")).
Proof.
  split; [|split].
  - apply (proj1 (list_aborts_on_first_error testcodec.Unmarshal (Some unsetFilter) partial)
             [sandboxKey "a"] (sandboxKey "b") [] false (ErrNoData "b")).
    + vm_compute. reflexivity.
    + intros k' Hk'. apply list_elem_of_singleton in Hk'. subst k'.
      exists true. vm_compute. reflexivity.
    + vm_compute. reflexivity.
  - apply (proj1 (proj2 (list_aborts_on_first_error testcodec.Unmarshal None partial))
             "b" unsetFilter ∅).
    + discriminate.
    + left. reflexivity.
    + vm_compute. reflexivity.
    + vm_compute. reflexivity.
  - apply (proj2 (proj2 (list_aborts_on_first_error testcodec.Unmarshal None mixed))
             "b" unsetFilter "garbage" None (ErrForeign "invalid character")).
    + discriminate.
    + left. reflexivity.
    + vm_compute. reflexivity.
    + reflexivity.
Defined.

Lemma nil_and_unset_filter_witness :
  result (filterPodSandboxMeta testcodec.Unmarshal (PodSandbox "a") (Some unsetFilter)
            (one "a"))
  = Returns (true, None)
  /\ result (ListPodSandboxes testcodec.Unmarshal (Some unsetFilter) (one "a"))
     = Returns (accessor <$> scanned (one "a"), None).
Proof.
  destruct (nil_and_unset_filter testcodec.Unmarshal (one "a")) as (_ & _ & _ & Hf & Hl).
  split.
  - apply Hf; [discriminate | exact (one_holds "a")].
  - apply Hl. intros i Hi.
    assert (i = "a") as ->.
    { apply sandboxKey_inj. destruct Hi as [items Hi].
      unfold one in Hi. apply lookup_singleton_Some in Hi as [Hi _]. by symmetry. }
    split; [discriminate | exact (one_holds "a")].
Defined.

(** With the filter that constrains nothing, the listing fails on a store
    one of whose sandboxes has a payload that does not decode, or a region
    without a payload; with the nil filter it returns both sandboxes. *)
Lemma unset_filter_counterexample :
  result (ListPodSandboxes testcodec.Unmarshal None mixed)
  = Returns ([PodSandbox "a"; PodSandbox "b"], None)
  /\ result (ListPodSandboxes testcodec.Unmarshal (Some unsetFilter) mixed)
     = Returns ([], Some (ErrForeign "invalid character"))
  /\ result (ListPodSandboxes testcodec.Unmarshal (Some unsetFilter) partial)
     = Returns ([], Some (ErrNoData "b")).
Proof. repeat split; vm_compute; reflexivity. Qed.

Lemma Save_frame_witness :
  exists db' err,
    result (Save testcodec.Marshal testcodec.Unmarshal (PodSandbox "a") (put ready) (one "b"))
    = Returns (db', err)
    /\ db' !! sandboxKey "b" = one "b" !! sandboxKey "b"
    /\ Retrieve testcodec.Unmarshal (PodSandbox "b") db'
       = Retrieve testcodec.Unmarshal (PodSandbox "b") (one "b").
Proof.
  apply (Save_frame testcodec.Marshal testcodec.Unmarshal "a" "b" (put ready) (one "b"));
    discriminate.
Defined.

(** * Further properties of sandboxes.go *)

Section More.
Variable json_Marshal : PodSandboxInfo.t -> bytes * option error.
Variable json_Unmarshal : bytes -> option PodSandboxInfo.t * option error.

(** ** The logs of Save and Retrieve *)

Lemma Save_events i u db :
  events (Save json_Marshal json_Unmarshal (PodSandbox i) u db)
  = saveLog json_Marshal json_Unmarshal i u db.
Proof.
  unfold saveLog, saveOutcome, current, stored, payload. run.
  case_bool_decide; simpl; [done|].
  destruct (db !! sandboxKey i) as [items|] eqn:Hdb; simpl.
  - rewrite ?Hdb.
    destruct (items !! sandboxDataBucket) as [[v|b]|] eqn:Hit; simpl;
      [destruct (json_Unmarshal v) as [cur [e|]]; simpl; [done|] | | ];
      (match goal with |- context [u ?c] => destruct (u c) as [[nd|] [e|]] end;
       simpl; try done;
       destruct (json_Marshal nd) as [data [e|]]; simpl; [done|];
       destruct (bolt.len data >? bolt.MaxValueSize)%Z; simpl; [done|];
       by rewrite ?Hdb, ?Hit).
  - rewrite ?lookup_insert_eq. simpl. rewrite ?lookup_empty.
    destruct (u None) as [[nd|] [e|]]; simpl; try done;
      rewrite ?lookup_insert_eq; try done.
    destruct (json_Marshal nd) as [data [e|]]; simpl; [done|].
    destruct (bolt.len data >? bolt.MaxValueSize)%Z; simpl; [done|].
    by rewrite ?lookup_insert_eq, ?lookup_empty.
Qed.

Lemma Retrieve_events i db :
  events (Retrieve json_Unmarshal (PodSandbox i) db) = retrieveLog i db.
Proof.
  unfold retrieveLog, payload. run.
  case_bool_decide; simpl; [done|].
  destruct (db !! sandboxKey i) as [items|] eqn:Hdb; simpl; [|done].
  rewrite ?Hdb.
  destruct (items !! sandboxDataBucket) as [[v|b]|] eqn:Hit; simpl; try done.
  by destruct (json_Unmarshal v) as [[p|] [e|]].
Qed.

Lemma M_eta {A} (m : M A) : m = (result m, events m).
Proof. by destruct m. Qed.

(** ** Save: atomicity, errors, log *)

(** X1: whenever Save returns an error, whichever it is, the store it
    returns is the store it was given. *)
Theorem Save_all_or_nothing i u db db' e :
  result (Save json_Marshal json_Unmarshal (PodSandbox i) u db) = Returns (db', Some e) ->
  db' = db.
Proof.
  rewrite Save_result. intros [= H].
  by apply (saveOutcome_error json_Marshal json_Unmarshal i u db db' e).
Qed.

(** X2: Retrieve and Save return on every store and for every accessor and
    updater: the bucket they read or write is never nil. *)
Theorem Retrieve_Save_never_panic m u db :
  (exists r, result (Retrieve json_Unmarshal m db) = Returns r)
  /\ (exists r, result (Save json_Marshal json_Unmarshal m u db) = Returns r).
Proof.
  destruct m as [i]. fold (PodSandbox i).
  rewrite Retrieve_result, Save_result. split; by eexists.
Qed.

(** X3: the errors of Save. An error Save returns is the empty-ID error,
    the decoder's error on the payload stored for the ID, the error the
    updater returns on the current record, the encoder's error on the
    record the updater returns, or the store's refusal of the encoded
    record: too large, or a payload slot taken by a nested bucket. *)
Theorem Save_errors i u db db' e :
  result (Save json_Marshal json_Unmarshal (PodSandbox i) u db) = Returns (db', Some e) ->
  (i = "" /\ e = ErrEmptyID)
  \/ (i <> "" /\ (current json_Unmarshal db i).2 = Some e)
  \/ (i <> "" /\ (current json_Unmarshal db i).2 = None /\
      (u (current json_Unmarshal db i).1).2 = Some e)
  \/ (i <> "" /\ exists R data,
        u (current json_Unmarshal db i).1 = (Some R, None) /\
        (json_Marshal R = (data, Some e)
         \/ (json_Marshal R = (data, None) /\
             (bolt.len data > bolt.MaxValueSize)%Z /\
             e = ErrBolt bolt_errors.ErrValueTooLarge)
         \/ (json_Marshal R = (data, None) /\
             (exists items b, db !! sandboxKey i = Some items /\
                items !! sandboxDataBucket = Some (bolt.Nested b)) /\
             e = ErrBolt bolt_errors.ErrIncompatibleValue))).
Proof.
  rewrite Save_result. unfold saveOutcome, current.
  case_bool_decide as Hi; [intros [= _ <-]; by left|].
  destruct (match stored db i with Some d => json_Unmarshal d | None => (None, None) end)
    as [cur [e1|]]; simpl.
  { intros [= _ <-]. right; left. done. }
  destruct (u cur) as [[nd|] [e2|]] eqn:Hu; simpl; try (intros [= _ <-]; by do 2 right; left).
  intros H. do 3 right. split; [done|].
  destruct (json_Marshal nd) as [data [e3|]] eqn:Hm.
  { injection H as _ <-. exists nd, data. split; [done|]. by left. }
  destruct (bolt.len data >? bolt.MaxValueSize)%Z eqn:Hlen.
  { injection H as _ <-. exists nd, data. split; [done|]. right; left.
    split; [done|]. split; [lia|done]. }
  destruct (db !! sandboxKey i) as [items|] eqn:Hdb; simpl in H.
  - destruct (items !! sandboxDataBucket) as [[v|b]|] eqn:Hit; try done.
    injection H as _ <-. exists nd, data. split; [done|]. right; right.
    split; [done|]. split; [|done]. by exists items, b.
  - by rewrite lookup_empty in H.
Qed.

Lemma Save_success_region i u db db' :
  i <> "" ->
  result (Save json_Marshal json_Unmarshal (PodSandbox i) u db) = Returns (db', None) ->
  (u (current json_Unmarshal db i).1 = (None, None) /\ db' !! sandboxKey i = None)
  \/ (exists R data,
        u (current json_Unmarshal db i).1 = (Some R, None) /\
        json_Marshal R = (data, None) /\
        db' !! sandboxKey i
        = Some (<[sandboxDataBucket := bolt.Value data]> (default ∅ (db !! sandboxKey i)))).
Proof.
  intros Hi. rewrite Save_result. unfold saveOutcome, current.
  rewrite bool_decide_eq_false_2 by exact Hi.
  destruct (match stored db i with Some d => json_Unmarshal d | None => (None, None) end)
    as [cur [e1|]]; simpl; [done|].
  destruct (u cur) as [[nd|] [e2|]] eqn:Hu; simpl; try done.
  - destruct (json_Marshal nd) as [data [e3|]] eqn:Hm; [done|].
    destruct (bolt.len data >? bolt.MaxValueSize)%Z; [done|].
    destruct (default ∅ (db !! sandboxKey i) !! sandboxDataBucket) as [[v|b]|];
      try done; intros [= <-]; right; exists nd, data;
      by rewrite lookup_insert_eq.
  - intros [= <-]. left. by rewrite lookup_delete_eq.
Qed.

(** X4: the region Save leaves on success. When Save returns no error,
    either the updater returned nil and the store has no region for the
    ID, or the updater returned a record and the region is the one of
    before (empty when there was none) with the payload slot set to the
    record's encoding: the other slots of the region are kept. *)
Theorem Save_region_after i u db db' :
  i <> "" ->
  result (Save json_Marshal json_Unmarshal (PodSandbox i) u db) = Returns (db', None) ->
  (u (current json_Unmarshal db i).1 = (None, None) /\ db' !! sandboxKey i = None)
  \/ (exists R data,
        u (current json_Unmarshal db i).1 = (Some R, None) /\
        json_Marshal R = (data, None) /\
        db' !! sandboxKey i
        = Some (<[sandboxDataBucket := bolt.Value data]> (default ∅ (db !! sandboxKey i)))).
Proof. apply Save_success_region. Qed.

(** X5: Save runs in one transaction. For a non-empty ID the log of Save
    opens one read-write transaction, closes it last, by a commit when
    Save returns no error and by a rollback when it returns one, and has
    no other opening or closing of a transaction. *)
Theorem Save_one_transaction i u db db' err :
  i <> "" ->
  result (Save json_Marshal json_Unmarshal (PodSandbox i) u db) = Returns (db', err) ->
  exists body,
    events (Save json_Marshal json_Unmarshal (PodSandbox i) u db)
    = EvBegin true :: body ++ [match err with None => EvCommit | Some _ => EvRollback end]
    /\ forallb (fun e => negb (isTxEvent e)) body = true.
Proof.
  intros Hi. rewrite Save_result, Save_events. unfold saveLog.
  rewrite bool_decide_eq_false_2 by exact Hi.
  intros [= Hout]. rewrite Hout. simpl.
  revert Hout. unfold saveOutcome, current.
  rewrite bool_decide_eq_false_2 by exact Hi.
  destruct (stored db i) as [d|]; simpl.
  - destruct (json_Unmarshal d) as [cur [e1|]]; simpl.
    { intros [= _ <-]. by exists [EvCreateBucket (sandboxKey i);
        EvGet (sandboxKey i) sandboxDataBucket; EvUnmarshal d]. }
    destruct (u cur) as [[nd|] [e2|]]; simpl.
    + intros [= _ <-]. by eexists [_; _; _; _].
    + destruct (json_Marshal nd) as [data [e3|]]; simpl.
      * intros [= _ <-]. by eexists [_; _; _; _; _].
      * intros _. by eexists [_; _; _; _; _; _].
    + intros [= _ <-]. by eexists [_; _; _; _].
    + intros [= _ <-]. by eexists [_; _; _; _; _].
  - destruct (u None) as [[nd|] [e2|]]; simpl.
    + intros [= _ <-]. by eexists [_; _; _].
    + destruct (json_Marshal nd) as [data [e3|]]; simpl.
      * intros [= _ <-]. by eexists [_; _; _; _].
      * intros _. by eexists [_; _; _; _; _].
    + intros [= _ <-]. by eexists [_; _; _].
    + intros [= _ <-]. by eexists [_; _; _; _].
Qed.

(** X6: Save calls the updater at most once: exactly once when the
    payload stored for the ID, if any, decodes without error, and not at
    all when it does not. *)
Theorem Save_calls_updater_once i u db :
  i <> "" ->
  length (List.filter isUpdater
            (events (Save json_Marshal json_Unmarshal (PodSandbox i) u db)))
  = match (current json_Unmarshal db i).2 with
    | None => 1
    | Some _ => 0
    end.
Proof.
  intros Hi. rewrite Save_events. unfold saveLog, current.
  rewrite bool_decide_eq_false_2 by exact Hi.
  destruct (stored db i) as [d|]; simpl.
  - destruct (json_Unmarshal d) as [cur [e1|]]; simpl; [done|].
    destruct (u cur) as [[nd|] [e2|]]; simpl; try done;
      destruct (json_Marshal nd) as [data [e3|]]; simpl; try done;
      by destruct (saveOutcome _ _ _ _ _).2.
  - destruct (u None) as [[nd|] [e2|]]; simpl; try done;
      destruct (json_Marshal nd) as [data [e3|]]; simpl; try done;
      by destruct (saveOutcome _ _ _ _ _).2.
Qed.

(** X7: Save depends on the updater through one value only, the one it
    returns on the current record: the decoded payload of the ID, with
    the ID field as decoded, or nil when there is no region or no payload.
    Two updaters that agree there give the same run of Save. *)
Theorem Save_updater_sees_current i u u' db :
  u (current json_Unmarshal db i).1 = u' (current json_Unmarshal db i).1 ->
  Save json_Marshal json_Unmarshal (PodSandbox i) u db
  = Save json_Marshal json_Unmarshal (PodSandbox i) u' db.
Proof.
  intros Hu.
  rewrite (M_eta (Save _ _ _ u db)), (M_eta (Save _ _ _ u' db)).
  rewrite !Save_result, !Save_events.
  assert (saveOutcome json_Marshal json_Unmarshal i u db
          = saveOutcome json_Marshal json_Unmarshal i u' db) as Hout.
  { revert Hu. unfold saveOutcome, current. case_bool_decide; [done|].
    destruct (match stored db i with Some d => json_Unmarshal d | None => (None, None) end)
      as [cur [e1|]]; simpl; [done|]. by intros ->. }
  f_equal; [by rewrite Hout|].
  unfold saveLog. rewrite Hout. case_bool_decide; [done|].
  do 2 f_equal. destruct (current json_Unmarshal db i).2; [done|]. by rewrite Hu.
Qed.

(** ** Retrieve *)

(** X8: Retrieve only reads, and only its own region: its log has no
    event that changes a transaction, and every bucket lookup and slot
    read in it names the key of the bound ID. *)
Theorem Retrieve_reads_own_region i db :
  Forall (fun e =>
            isWrite e = false /\
            match e with
            | EvBucket k | EvGet k _ => k = sandboxKey i
            | _ => True
            end)
         (events (Retrieve json_Unmarshal (PodSandbox i) db)).
Proof.
  rewrite Retrieve_events. unfold retrieveLog.
  case_bool_decide; [constructor|].
  destruct (db !! sandboxKey i) as [items|]; simpl.
  - destruct (payload items); simpl; repeat constructor.
  - repeat constructor.
Qed.

(** X9: a record Retrieve returns without error carries the bound ID: it
    is the record decoded from the payload stored for the ID, with the ID
    field overwritten by the bound ID, whatever ID the payload carried. *)
Theorem Retrieve_stamps_bound_ID i db p :
  result (Retrieve json_Unmarshal (PodSandbox i) db) = Returns (Some p, None) ->
  PodSandboxInfo.PodID p = i
  /\ exists data p0,
       stored db i = Some data /\
       json_Unmarshal data = (Some p0, None) /\
       p = PodSandboxInfo.setPodID i p0.
Proof.
  rewrite Retrieve_result. unfold retrieveOutcome, stored.
  case_bool_decide; [done|].
  destruct (db !! sandboxKey i) as [items|]; [|done].
  destruct (payload items) as [data|]; [|done].
  destruct (json_Unmarshal data) as [[p0|] [e|]] eqn:Hdec; try done.
  intros [= <-]. split; [done|]. by exists data, p0.
Qed.

(** X10: what Retrieve returns when the decoder does not give a record.
    When the decoder returns an error, Retrieve returns that error with
    whatever the decoder left, the ID not set; when the decoder returns
    nil without error, Retrieve returns nil without error. *)
Theorem Retrieve_passes_decoder_outcome i db data :
  i <> "" ->
  stored db i = Some data ->
  (forall p e, json_Unmarshal data = (p, Some e) ->
     result (Retrieve json_Unmarshal (PodSandbox i) db) = Returns (p, Some e))
  /\ (json_Unmarshal data = (None, None) ->
      result (Retrieve json_Unmarshal (PodSandbox i) db) = Returns (None, None)).
Proof.
  intros Hi Hst. rewrite Retrieve_result, (retrieveOutcome_stored _ _ _ data Hi Hst).
  split.
  - intros p e ->. by destruct p.
  - by intros ->.
Qed.

(** ** Saves in sequence *)

Lemma current_after_put i db items data :
  current json_Unmarshal
    (<[sandboxKey i := <[sandboxDataBucket := bolt.Value data]> items]> db) i
  = json_Unmarshal data.
Proof. unfold current. by rewrite stored_insert. Qed.

Lemma Save_put_valid i R u db data :
  i <> "" ->
  json_Marshal R = (data, None) ->
  (bolt.len data <= bolt.MaxValueSize)%Z ->
  (current json_Unmarshal db i).2 = None ->
  slotWritable db i ->
  u (current json_Unmarshal db i).1 = (Some R, None) ->
  result (Save json_Marshal json_Unmarshal (PodSandbox i) u db)
  = Returns (<[sandboxKey i := <[sandboxDataBucket := bolt.Value data]>
                                 (default ∅ (db !! sandboxKey i))]> db, None).
Proof.
  intros Hi Hm Hlen Hcur Hw Hu. rewrite Save_result.
  revert Hcur Hu. unfold saveOutcome, current.
  rewrite bool_decide_eq_false_2 by exact Hi.
  destruct (match stored db i with Some d => json_Unmarshal d | None => (None, None) end)
    as [cur e]; simpl. intros -> ->. rewrite Hm.
  assert ((bolt.len data >? bolt.MaxValueSize)%Z = false) as -> by lia.
  unfold slotWritable in Hw.
  destruct (db !! sandboxKey i) as [items|]; simpl.
  - by destruct (items !! sandboxDataBucket) as [[v|b]|].
  - by rewrite lookup_empty.
Qed.

Lemma slotWritable_after_put i db items data :
  slotWritable (<[sandboxKey i := <[sandboxDataBucket := bolt.Value data]> items]> db) i.
Proof. unfold slotWritable. by rewrite !lookup_insert_eq. Qed.

(** X11: two Saves in sequence. After a Save that stores the record R1, a
    second Save on the same ID calls its updater on the record decoded
    from the encoding of R1; when that updater returns R2 the second Save
    returns no error and Retrieve returns R2 with the bound ID, and
    nothing of R1. *)
Theorem Save_then_Save i R1 R1' data1 R2 u1 u2 db :
  i <> "" ->
  json_Marshal R1 = (data1, None) ->
  (bolt.len data1 <= bolt.MaxValueSize)%Z ->
  json_Unmarshal data1 = (Some R1', None) ->
  validRecord json_Marshal json_Unmarshal R2 ->
  storedDecodes json_Unmarshal db i ->
  slotWritable db i ->
  (forall c, u1 c = (Some R1, None)) ->
  u2 (Some R1') = (Some R2, None) ->
  exists db1 db2,
    result (Save json_Marshal json_Unmarshal (PodSandbox i) u1 db) = Returns (db1, None)
    /\ result (Save json_Marshal json_Unmarshal (PodSandbox i) u2 db1) = Returns (db2, None)
    /\ result (Retrieve json_Unmarshal (PodSandbox i) db2)
       = Returns (Some (PodSandboxInfo.setPodID i R2), None).
Proof.
  intros Hi Hm1 Hlen1 Hdec1 (data2 & R2' & Hm2 & Hlen2 & Hdec2 & Heq2) Hst Hw Hu1 Hu2.
  assert ((current json_Unmarshal db i).2 = None) as Hcur.
  { unfold current. unfold storedDecodes in Hst. by destruct (stored db i). }
  eexists _, _. split; [|split].
  - by apply (Save_put_valid i R1 u1 db data1).
  - apply (Save_put_valid i R2 u2 _ data2); try done.
    + by rewrite current_after_put, Hdec1.
    + apply slotWritable_after_put.
    + by rewrite current_after_put, Hdec1.
  - rewrite Retrieve_result.
    rewrite (retrieveOutcome_stored _ _ _ data2 Hi) by apply stored_insert.
    rewrite Hdec2. by rewrite (setPodID_change i _ _ Heq2).
Qed.

(** ** An invariant of the store *)

Lemma stored_frame j (db db' : bolt.DB) :
  db' !! sandboxKey j = db !! sandboxKey j -> stored db' j = stored db j.
Proof. unfold stored. by intros ->. Qed.

(** X12: Save keeps the store consistent. The empty store is consistent
    (every region under the prefix has a non-empty ID and holds a payload
    that decodes to a record), and a Save whose updater returns only
    errors, nil or valid records leaves a consistent store consistent,
    whatever Save returns. *)
Theorem Save_keeps_consistent i u db db' err :
  consistent json_Unmarshal db ->
  (forall c R, u c = (Some R, None) -> validRecord json_Marshal json_Unmarshal R) ->
  result (Save json_Marshal json_Unmarshal (PodSandbox i) u db) = Returns (db', err) ->
  consistent json_Unmarshal ∅ /\ consistent json_Unmarshal db'.
Proof.
  intros Hc Hu HS. split.
  { intros j [x Hx]. by rewrite lookup_empty in Hx. }
  destruct err as [e|].
  { rewrite Save_result in HS. injection HS as HS.
    by rewrite (saveOutcome_error json_Marshal json_Unmarshal i u db db' e HS). }
  destruct (decide (i = "")) as [->|Hi].
  { rewrite Save_result in HS. by injection HS as <-. }
  assert (forall j, j <> i -> db' !! sandboxKey j = db !! sandboxKey j) as Hfr.
  { intros j Hj. rewrite Save_result in HS.
    pose proof (saveOutcome_frame json_Marshal json_Unmarshal i u db (sandboxKey j)) as H.
    injection HS as HS. rewrite HS in H. apply H. by apply sandboxKey_ne. }
  intros j Hj. destruct (decide (j = i)) as [->|Hji].
  - split; [done|].
    destruct (Save_success_region i u db db' Hi HS) as [[_ Hnone]|(R & data & HuR & Hm & Hreg)].
    { rewrite Hnone in Hj. by destruct Hj. }
    destruct (Hu _ _ HuR) as (data' & R' & Hm' & _ & Hdec & _).
    rewrite Hm in Hm'. injection Hm' as <-.
    exists data, R'. split; [|done].
    unfold stored, payload. by rewrite Hreg, lookup_insert_eq.
  - rewrite (Hfr j Hji) in Hj. destruct (Hc j Hj) as [Hne (data & psi & Hst & Hdec)].
    split; [done|]. exists data, psi. split; [|done].
    by rewrite (stored_frame j db db' (Hfr j Hji)).
Qed.

(** ** getSandboxBucket *)

(** X13: getSandboxBucket with [create] set, in a read-write transaction,
    returns the bucket of the ID without error and leaves a transaction in
    which the region exists with the content it had (empty when it is
    new) and every other key is as before; called again on the
    transaction it leaves, it changes nothing. Without [create] it leaves
    the transaction as it is, and a missing region is the error "does not
    exist" unless [optional] is set, in which case it is a nil bucket
    without error. *)
Theorem getSandboxBucket_ensures tx podID optional :
  bolt.writable tx = true ->
  (exists tx',
     result (getSandboxBucket tx podID true optional)
     = Returns (tx', (Some (sandboxKey podID), None))
     /\ bolt.root tx' !! sandboxKey podID
        = Some (default ∅ (bolt.root tx !! sandboxKey podID))
     /\ (forall k, k <> sandboxKey podID -> bolt.root tx' !! k = bolt.root tx !! k)
     /\ result (getSandboxBucket tx' podID true optional)
        = Returns (tx', (Some (sandboxKey podID), None)))
  /\ (bolt.root tx !! sandboxKey podID = None ->
      result (getSandboxBucket tx podID false optional)
      = Returns (tx, (None, if optional then None else Some (ErrNotExist podID))))
  /\ (is_Some (bolt.root tx !! sandboxKey podID) ->
      result (getSandboxBucket tx podID false optional)
      = Returns (tx, (Some (sandboxKey podID), None))).
Proof.
  intros Hw. destruct tx as [r w]. simpl in Hw. subst w. split; [|split].
  - unfold getSandboxBucket, bolt.CreateBucketIfNotExists, bolt.setRoot,
      bind, ret, emit, result. simpl.
    destruct (r !! sandboxKey podID) as [items|] eqn:Hr; simpl.
    + exists {| bolt.root := r; bolt.writable := true |}. simpl.
      rewrite Hr. simpl. done.
    + exists {| bolt.root := <[sandboxKey podID := ∅]> r; bolt.writable := true |}.
      simpl. rewrite lookup_insert_eq. simpl. split; [done|]. split; [done|].
      split; [|done]. intros k Hk. by rewrite lookup_insert_ne.
  - simpl. intros Hr.
    unfold getSandboxBucket, bolt.Bucket, bind, ret, emit, result. simpl.
    rewrite Hr. simpl. by destruct optional.
  - simpl. intros [items Hr].
    unfold getSandboxBucket, bolt.Bucket, bind, ret, emit, result. simpl.
    by rewrite Hr.
Qed.

(** ** The listing *)

Lemma StronglySorted_sublist {A} (R : relation A) (l1 l2 : list A) :
  l1 `sublist_of` l2 -> StronglySorted R l2 -> StronglySorted R l1.
Proof.
  induction 1 as [|x l1 l2 Hs IH|x l1 l2 Hs IH]; intros Hl2; [done| |].
  - apply StronglySorted_inv in Hl2 as [Hl2 Hx]. constructor; [by apply IH|].
    eapply Forall_forall. intros y Hy. eapply Forall_forall; [exact Hx|].
    by eapply elem_of_sublist.
  - apply StronglySorted_inv in Hl2 as [Hl2 _]. by apply IH.
Qed.

Lemma scanned_sorted db : StronglySorted bytes_le (scanned db).
Proof.
  unfold scanned. rewrite visited_Seek by (apply StronglySorted_merge_sort; apply _).
  eapply StronglySorted_sublist; [apply sublist_filter|].
  apply StronglySorted_merge_sort; apply _.
Qed.

Lemma compare_append p a b :
  String.compare (p +:+ a) (p +:+ b) = String.compare a b.
Proof.
  induction p as [|c p IH]; [done|].
  rewrite !append_cons. simpl. by rewrite ascii_compare_refl.
Qed.

Lemma bytes_le_sandboxKey a b : bytes_le (sandboxKey a) (sandboxKey b) <-> bytes_le a b.
Proof. unfold bytes_le, String.leb, sandboxKey. by rewrite compare_append. Qed.

(** The scan collects, in their order, some of the keys it visits. *)
Lemma scan_collects filter db c res0 res err :
  result (scan json_Unmarshal filter db c res0) = Returns (res, err) ->
  exists ks, res = res0 ++ (accessor <$> ks) /\ ks `sublist_of` visited c.
Proof.
  revert res0. induction c as [|k c IH]; intros res0.
  - simpl. intros [= <- _]. exists []. by rewrite app_nil_r.
  - rewrite scan_result_cons. simpl.
    destruct (HasPrefix k sandboxKeyPrefix).
    2:{ intros [= <- _]. exists []. by rewrite app_nil_r. }
    destruct (result (filterPodSandboxMeta json_Unmarshal (accessor k) filter db))
      as [[fv [e|]]|]; [| |done].
    { intros [= <- _]. exists []. rewrite app_nil_r. split; [done|]. apply sublist_nil_l. }
    intros H. apply IH in H as (ks & -> & Hks). destruct fv.
    + exists (k :: ks). rewrite <- app_assoc. split; [done|]. by apply sublist_skip.
    + exists ks. split; [done|]. by apply sublist_cons.
Qed.

(** When the predicate returns a verdict without error on every visited
    key, the scan collects the keys with a positive verdict. *)
Lemma scan_verdicts filter db c res (P : bytes -> bool) :
  (forall k, k ∈ visited c ->
     result (filterPodSandboxMeta json_Unmarshal (accessor k) filter db)
     = Returns (P k, None)) ->
  result (scan json_Unmarshal filter db c res)
  = Returns (res ++ (accessor <$> List.filter P (visited c)), None).
Proof.
  revert res. induction c as [|k c IH]; intros res Hall.
  - simpl. by rewrite app_nil_r.
  - rewrite scan_result_cons. simpl in *.
    destruct (HasPrefix k sandboxKeyPrefix); [|by rewrite app_nil_r].
    rewrite Hall by apply list_elem_of_here. simpl.
    rewrite IH by (intros k' Hk'; by apply Hall, list_elem_of_further).
    destruct (P k); simpl; [by rewrite <- app_assoc | done].
Qed.

Lemma ListPodSandboxes_nil db :
  result (ListPodSandboxes json_Unmarshal None db)
  = Returns (accessor <$> scanned db, None).
Proof. rewrite ListPodSandboxes_result. by rewrite scan_nil_filter. Qed.

Lemma filter_on_record i filter db data psi config :
  i <> "" ->
  stored db i = Some data ->
  json_Unmarshal data = (Some psi, None) ->
  PodSandboxInfo.Config psi = Some config ->
  result (filterPodSandboxMeta json_Unmarshal (PodSandbox i) (Some filter) db)
  = Returns (recordMatches i filter psi config, None).
Proof.
  intros Hi Hst Hdec Hcfg. rewrite filter_result. unfold filterOutcome, recordMatches.
  rewrite (retrieveOutcome_stored _ _ _ data Hi Hst), Hdec. simpl. rewrite Hcfg.
  destruct (decide (PodSandboxFilter.Id filter = "")) as [He|He].
  - rewrite (bool_decide_eq_false_2 (PodSandboxFilter.Id filter <> "")) by auto.
    rewrite (bool_decide_eq_true_2 (_ \/ _)) by auto. simpl.
    destruct (PodSandboxFilter.State filter) as [st|]; [|done].
    destruct (decide (PodSandboxInfo.State psi = st)) as [Hs|Hs].
    + rewrite (bool_decide_eq_false_2 (_ <> st)) by auto.
      by rewrite (bool_decide_eq_true_2 (_ = st)).
    + rewrite (bool_decide_eq_true_2 (_ <> st)) by auto.
      by rewrite (bool_decide_eq_false_2 (_ = st)).
  - rewrite (bool_decide_eq_true_2 (PodSandboxFilter.Id filter <> "")) by auto.
    destruct (decide (i = PodSandboxFilter.Id filter)) as [Hid|Hid].
    + rewrite (bool_decide_eq_false_2 (i <> _)) by auto.
      rewrite (bool_decide_eq_true_2 (_ \/ _)) by auto. simpl.
      destruct (PodSandboxFilter.State filter) as [st|]; [|done].
      destruct (decide (PodSandboxInfo.State psi = st)) as [Hs|Hs].
      * rewrite (bool_decide_eq_false_2 (_ <> st)) by auto.
        by rewrite (bool_decide_eq_true_2 (_ = st)).
      * rewrite (bool_decide_eq_true_2 (_ <> st)) by auto.
        by rewrite (bool_decide_eq_false_2 (_ = st)).
    + rewrite (bool_decide_eq_true_2 (i <> _)) by auto.
      rewrite (bool_decide_eq_false_2 (_ \/ _)) by (intros [?|?]; done). done.
Qed.

Lemma scan_success filter db res :
  result (ListPodSandboxes json_Unmarshal filter db) = Returns (res, None) ->
  result (scan json_Unmarshal filter db (bolt.Seek (keys db) sandboxKeyPrefix) [])
  = Returns (res, None).
Proof.
  rewrite ListPodSandboxes_result.
  destruct (result (scan _ _ _ _ _)) as [[r [e|]]|]; [done| |done]. by intros [= ->].
Qed.

Lemma ids_sorted ks :
  (forall k, k ∈ ks -> HasPrefix k sandboxKeyPrefix = true) ->
  StronglySorted bytes_le ks ->
  StronglySorted bytes_le (GetID <$> (accessor <$> ks)).
Proof.
  induction ks as [|k ks IH]; intros Hp Hs; [constructor|].
  apply StronglySorted_inv in Hs as [Hs Hk]. simpl. constructor.
  - apply IH; [|done]. intros k' Hk'. by apply Hp, list_elem_of_further.
  - rewrite <- list_fmap_compose. apply Forall_fmap, Forall_forall. intros y Hy.
    change (bytes_le (skip (String.length sandboxKeyPrefix) k)
                     (skip (String.length sandboxKeyPrefix) y)).
    apply (proj1 (bytes_le_sandboxKey _ _)).
    rewrite <- (HasPrefix_key k) by apply Hp, list_elem_of_here.
    rewrite <- (HasPrefix_key y) by (by apply Hp, list_elem_of_further).
    eapply Forall_forall in Hk; [exact Hk | exact Hy].
Qed.

(** X14: what a listing returns is in key order and exists. For every
    filter, when ListPodSandboxes returns no error, the IDs of the
    accessors it returns are in ascending byte order, without repetition,
    and each of them has a region in the store. *)
Theorem ListPodSandboxes_in_key_order filter db res :
  result (ListPodSandboxes json_Unmarshal filter db) = Returns (res, None) ->
  (forall m, m ∈ res -> is_Some (db !! sandboxKey (GetID m)))
  /\ StronglySorted bytes_le (GetID <$> res)
  /\ NoDup (GetID <$> res).
Proof.
  intros H%scan_success. apply scan_collects in H as (ks & -> & Hks). simpl.
  fold (scanned db) in Hks.
  assert (forall k, k ∈ ks -> HasPrefix k sandboxKeyPrefix = true) as Hp.
  { intros k Hk. eapply elem_of_scanned, elem_of_sublist; [exact Hk | exact Hks]. }
  split; [|split].
  - intros m [k [-> Hk]]%list_elem_of_fmap.
    assert (k ∈ scanned db) as Hsc by (by eapply elem_of_sublist).
    apply scanned_accessor in Hsc as [i [-> [-> Hi]]]. done.
  - apply ids_sorted; [done|].
    eapply StronglySorted_sublist; [exact Hks | apply scanned_sorted].
  - rewrite <- list_fmap_compose. apply NoDup_fmap_2_strong.
    + intros x y Hx Hy Heq.
      change (skip (String.length sandboxKeyPrefix) x
              = skip (String.length sandboxKeyPrefix) y) in Heq.
      rewrite (HasPrefix_key x) by auto. rewrite (HasPrefix_key y) by auto.
      by rewrite Heq.
    + eapply sublist_NoDup; [apply NoDup_scanned | exact Hks].
Qed.

(** X15: the predicate is the conjunction of its three checks. For a
    non-empty ID whose region holds a payload that decodes to a record
    with a configuration, the predicate with a filter that is not nil
    returns, without error, whether the filter's ID is unset or is the
    accessor's ID, and the filter's state is unset or is the record's
    state, and the selector built from the filter's label set matches the
    record's labels. *)
Theorem predicate_is_conjunction i filter db data psi config :
  i <> "" ->
  stored db i = Some data ->
  json_Unmarshal data = (Some psi, None) ->
  PodSandboxInfo.Config psi = Some config ->
  result (filterPodSandboxMeta json_Unmarshal (PodSandbox i) (Some filter) db)
  = Returns (recordMatches i filter psi config, None).
Proof. apply filter_on_record. Qed.

Lemma selects_record i f db data psi config :
  stored db i = Some data ->
  json_Unmarshal data = (Some psi, None) ->
  PodSandboxInfo.Config psi = Some config ->
  selects json_Unmarshal (Some f) db (sandboxKey i) = recordMatches i f psi config.
Proof.
  intros Hst Hdec Hcfg. unfold selects. rewrite accessor_sandboxKey. simpl.
  unfold current. rewrite Hst, Hdec. simpl. by rewrite Hcfg.
Qed.

Lemma filter_true {A} (l : list A) : List.filter (fun _ => true) l = l.
Proof. induction l as [|x l IH]; simpl; [done | by rewrite IH]. Qed.

(** X16: the listing on a store whose regions hold records. When every
    region under the prefix has a non-empty ID and holds a payload that
    decodes to a record with a configuration, ListPodSandboxes returns no
    error and returns, in key order, the accessors of exactly the keys
    whose record passes the three checks of the filter (all of them for
    the nil filter). *)
Theorem ListPodSandboxes_selects filter db :
  (forall i, is_Some (db !! sandboxKey i) -> i <> "" /\ holdsRecord json_Unmarshal db i) ->
  result (ListPodSandboxes json_Unmarshal filter db)
  = Returns (accessor <$> List.filter (selects json_Unmarshal filter db) (scanned db), None).
Proof.
  intros Hall. destruct filter as [f|].
  - rewrite ListPodSandboxes_result.
    rewrite (scan_verdicts (Some f) db _ [] (selects json_Unmarshal (Some f) db)); [done|].
    intros k Hk. fold (scanned db) in Hk.
    apply scanned_accessor in Hk as [i [-> [-> Hi]]].
    destruct (Hall i Hi) as [Hne (data & psi & config & Hst & Hdec & Hcfg)].
    rewrite (selects_record i f db data psi config Hst Hdec Hcfg).
    by apply (filter_on_record i f db data).
  - rewrite ListPodSandboxes_nil. simpl. by rewrite filter_true.
Qed.

Lemma scanned_empty db :
  (forall k, is_Some (db !! k) -> HasPrefix k sandboxKeyPrefix = false) ->
  scanned db = [].
Proof.
  intros Hno. destruct (scanned db) as [|k l] eqn:Hsc; [done|].
  assert (k ∈ scanned db) as Hk by (rewrite Hsc; apply list_elem_of_here).
  apply elem_of_scanned in Hk as [Hp Hk]. by rewrite (Hno k Hk) in Hp.
Qed.

(** X17: the listing of an empty namespace. On a store none of whose keys
    has the prefix, the empty store among them, ListPodSandboxes returns
    the empty collection and no error for every filter, and its log has
    the read transaction and the cursor only. *)
Theorem ListPodSandboxes_empty_namespace filter db :
  (forall k, is_Some (db !! k) -> HasPrefix k sandboxKeyPrefix = false) ->
  ListPodSandboxes json_Unmarshal filter db
  = (Returns ([], None), [EvBegin false; EvCursor; EvRollback]).
Proof.
  intros Hno%scanned_empty.
  unfold ListPodSandboxes, bolt.View, bolt.Cursor. simpl. fold (keys db).
  rewrite scan_none_match; [done|].
  intros k Hk. fold (scanned db) in Hk. rewrite Hno in Hk. by apply elem_of_nil in Hk.
Qed.

Lemma filter_single (l : list bytes) x b :
  NoDup l -> x ∈ l ->
  List.filter (fun k => bool_decide (k = x) && b) l = if b then [x] else [].
Proof.
  induction 1 as [|y l Hy Hl IH]; [by intros ?%elem_of_nil|].
  intros [->|Hx]%elem_of_cons; simpl.
  - rewrite bool_decide_eq_true_2 by done. simpl.
    assert (List.filter (fun k => bool_decide (k = y) && b) l = []) as ->.
    { clear IH Hl. induction l as [|z l IHl]; [done|]. simpl.
      apply not_elem_of_cons in Hy as [Hzy Hy].
      rewrite (bool_decide_eq_false_2 (z = y)) by auto. simpl. by apply IHl. }
    by destruct b.
  - rewrite (bool_decide_eq_false_2 (y = x)) by (intros ->; done). simpl. by apply IH.
Qed.

(** X18: the listing by ID of a sandbox that is there. When the filter's
    ID is a non-empty ID whose region holds a payload that decodes to a
    record with a configuration, ListPodSandboxes returns no error and
    returns that sandbox's accessor alone when the record passes the
    state and label checks, and nothing when it does not, whatever the
    other regions hold. *)
Theorem ListPodSandboxes_by_ID i filter db data psi config :
  i <> "" ->
  PodSandboxFilter.Id filter = i ->
  stored db i = Some data ->
  json_Unmarshal data = (Some psi, None) ->
  PodSandboxInfo.Config psi = Some config ->
  result (ListPodSandboxes json_Unmarshal (Some filter) db)
  = Returns (if recordMatches i filter psi config then [PodSandbox i] else [], None).
Proof.
  intros Hi Hid Hst Hdec Hcfg. rewrite ListPodSandboxes_result.
  rewrite (scan_verdicts (Some filter) db _ []
             (fun k => bool_decide (k = sandboxKey i) && recordMatches i filter psi config)).
  - fold (scanned db). rewrite filter_single.
    + by destruct (recordMatches i filter psi config).
    + apply NoDup_scanned.
    + apply scanned_sandbox. unfold stored in Hst.
      destruct (db !! sandboxKey i); [by eexists | done].
  - intros k Hk. fold (scanned db) in Hk.
    apply scanned_accessor in Hk as [j [-> [-> Hj]]].
    destruct (decide (j = i)) as [->|Hji].
    + rewrite bool_decide_eq_true_2 by done. simpl.
      by apply (filter_on_record i filter db data).
    + rewrite (bool_decide_eq_false_2 (sandboxKey j = sandboxKey i))
        by (by apply sandboxKey_ne).
      rewrite filter_result. unfold filterOutcome. rewrite Hid.
      rewrite (bool_decide_eq_true_2 (i <> "")) by done.
      by rewrite (bool_decide_eq_true_2 (j <> i)).
Qed.

(** X19: Save and the listing. After a Save that returns no error, the
    listing with the nil filter has the accessor of the saved ID exactly
    when the updater returned a record, and has the accessor of any other
    ID exactly when the listing before the Save had it. *)
Theorem Save_then_List i u db db' :
  i <> "" ->
  result (Save json_Marshal json_Unmarshal (PodSandbox i) u db) = Returns (db', None) ->
  exists l l',
    result (ListPodSandboxes json_Unmarshal None db) = Returns (l, None)
    /\ result (ListPodSandboxes json_Unmarshal None db') = Returns (l', None)
    /\ (PodSandbox i ∈ l' <-> (u (current json_Unmarshal db i).1).1 <> None)
    /\ (forall j, j <> i -> PodSandbox j ∈ l' <-> PodSandbox j ∈ l).
Proof.
  intros Hi HS. exists (accessor <$> scanned db), (accessor <$> scanned db').
  rewrite !ListPodSandboxes_nil. split; [done|]. split; [done|]. split.
  - rewrite elem_of_listed.
    destruct (Save_success_region i u db db' Hi HS) as [[Hu Hreg]|(R & data & Hu & _ & Hreg)];
      rewrite Hu, Hreg; simpl.
    + split; [by intros [? ?] | done].
    + split; [done | by eexists].
  - intros j Hj. rewrite !elem_of_listed.
    rewrite Save_result in HS. injection HS as HS.
    pose proof (saveOutcome_frame json_Marshal json_Unmarshal i u db (sandboxKey j)) as H.
    rewrite HS in H. simpl in H. rewrite H; [done|]. by apply sandboxKey_ne.
Qed.

Lemma scanned_head db :
  is_Some (db !! sandboxKeyPrefix) -> exists rest, scanned db = sandboxKeyPrefix :: rest.
Proof.
  intros Hdb.
  assert (sandboxKeyPrefix ∈ scanned db) as Hin by (by apply elem_of_scanned).
  pose proof (scanned_sorted db) as Hs.
  destruct (scanned db) as [|h t] eqn:Hsc; [by apply elem_of_nil in Hin|].
  apply elem_of_cons in Hin as [<-|Hin]; [by exists t|].
  apply StronglySorted_inv in Hs as [_ Hh].
  eapply Forall_forall in Hh; [|exact Hin].
  assert (h ∈ scanned db) as Hhin by (rewrite Hsc; apply list_elem_of_here).
  apply elem_of_scanned in Hhin as [Hp _]. apply prefix_not_below in Hp.
  assert (bytes_le sandboxKeyPrefix h) as Hle.
  { unfold bytes_le, String.leb, String.ltb in *. rewrite String.compare_antisym.
    by destruct (String.compare h sandboxKeyPrefix). }
  exists t. f_equal. by apply String.leb_antisym.
Qed.

(** X20: a region named by the prefix alone. When the store has a region
    whose key is the prefix itself, the listing with the nil filter
    returns an accessor with the empty ID, and the listing with a filter
    that is not nil and has no ID returns the empty-ID error and nothing
    else, whatever the other regions hold: that key is visited first and
    Retrieve refuses the empty ID. Save never creates such a region. *)
Theorem ListPodSandboxes_unnamed_region db :
  is_Some (db !! sandboxKeyPrefix) ->
  (exists l, result (ListPodSandboxes json_Unmarshal None db) = Returns (l, None)
             /\ PodSandbox "" ∈ l)
  /\ (forall filter, PodSandboxFilter.Id filter = "" ->
        result (ListPodSandboxes json_Unmarshal (Some filter) db)
        = Returns ([], Some ErrEmptyID))
  /\ (forall i u db0 db1 err,
        db0 !! sandboxKeyPrefix = None ->
        result (Save json_Marshal json_Unmarshal (PodSandbox i) u db0) = Returns (db1, err) ->
        db1 !! sandboxKeyPrefix = None).
Proof.
  intros Hdb. split; [|split].
  - exists (accessor <$> scanned db). split; [apply ListPodSandboxes_nil|].
    by apply elem_of_listed.
  - intros filter Hid. rewrite ListPodSandboxes_result.
    destruct (scanned_head db Hdb) as [rest Hsc].
    destruct (scan_abort json_Unmarshal (Some filter) db
                (bolt.Seek (keys db) sandboxKeyPrefix) [] [] sandboxKeyPrefix rest
                false ErrEmptyID) as [res' ->]; [exact Hsc| |..|done].
    + by intros k' ?%elem_of_nil.
    + change (accessor sandboxKeyPrefix) with (PodSandbox "").
      rewrite filter_result. unfold filterOutcome. rewrite Hid. done.
  - intros i u db0 db1 err Hno HS. rewrite Save_result in HS. injection HS as HS.
    destruct (decide (i = "")) as [->|Hi].
    + unfold saveOutcome in HS. simpl in HS. by injection HS as <-.
    + pose proof (saveOutcome_frame json_Marshal json_Unmarshal i u db0 sandboxKeyPrefix)
        as H.
      rewrite HS in H. simpl in H. rewrite H; [done|].
      change sandboxKeyPrefix with (sandboxKey "") at 1. apply sandboxKey_ne. auto.
Qed.

(** ** The key layout *)

(** X21: keys and IDs. The key of an ID has the prefix, the ID the
    listing derives from it is that ID, and distinct IDs have distinct
    keys; conversely every key with the prefix is the key of the ID the
    listing derives from it. *)
Theorem sandboxKey_layout i :
  HasPrefix (sandboxKey i) sandboxKeyPrefix = true
  /\ accessor (sandboxKey i) = PodSandbox i
  /\ (forall j, sandboxKey i = sandboxKey j -> i = j)
  /\ (forall k, HasPrefix k sandboxKeyPrefix = true -> sandboxKey (GetID (accessor k)) = k).
Proof.
  split; [apply HasPrefix_sandboxKey|]. split; [apply accessor_sandboxKey|].
  split; [intros j; apply sandboxKey_inj|].
  intros k Hk. symmetry. by apply HasPrefix_key.
Qed.

End More.

(** * The further properties on concrete stores *)

Import teststores.

Lemma notReady_valid :
  validRecord testcodec.Marshal testcodec.Unmarshal
    (info (Some config0) PodSandboxState_NOTREADY).
Proof.
  exists "{N}", (info (Some config0) PodSandboxState_NOTREADY).
  split; [reflexivity|]. split; [|split; reflexivity].
  vm_compute. discriminate.
Defined.

Lemma one_consistent (i : string) : i <> "" -> consistent testcodec.Unmarshal (one i).
Proof.
  intros Hi j [items Hj]. unfold one in Hj.
  apply lookup_singleton_Some in Hj as [Hj _]. apply sandboxKey_inj in Hj. subst j.
  split; [exact Hi|]. exists "{R}", ready. split; [|reflexivity].
  unfold stored, one, payload. by rewrite !lookup_singleton_eq.
Defined.

Lemma two_holds (i : string) :
  is_Some (two !! sandboxKey i) -> i <> "" /\ holdsRecord testcodec.Unmarshal two i.
Proof.
  intros [items Hi]. unfold two in Hi.
  apply lookup_insert_Some in Hi as [[Hk _]|[_ Hi]].
  - apply sandboxKey_inj in Hk. subst i. split; [discriminate|].
    exists "{N}", (info (Some config0) PodSandboxState_NOTREADY), config0.
    split; [|split; reflexivity]. vm_compute. reflexivity.
  - unfold one in Hi. apply lookup_singleton_Some in Hi as [Hk _].
    apply sandboxKey_inj in Hk. subst i. split; [discriminate|].
    exists "{R}", ready, config0. split; [|split; reflexivity]. vm_compute. reflexivity.
Defined.

Lemma Save_all_or_nothing_witness :
  result (tSave (PodSandbox "a") (put ready) (blocked "a"))
  = Returns (blocked "a", Some (ErrBolt bolt_errors.ErrIncompatibleValue))
  /\ blocked "a" = blocked "a".
Proof.
  assert (result (tSave (PodSandbox "a") (put ready) (blocked "a"))
          = Returns (blocked "a", Some (ErrBolt bolt_errors.ErrIncompatibleValue))) as H
    by (vm_compute; reflexivity).
  split; [exact H|].
  exact (Save_all_or_nothing testcodec.Marshal testcodec.Unmarshal
           "a" (put ready) (blocked "a") (blocked "a")
           (ErrBolt bolt_errors.ErrIncompatibleValue) H).
Defined.

Lemma Save_errors_witness :
  ("a" = "" /\ ErrBolt bolt_errors.ErrIncompatibleValue = ErrEmptyID)
  \/ ("a" <> "" /\ (current testcodec.Unmarshal (blocked "a") "a").2
                  = Some (ErrBolt bolt_errors.ErrIncompatibleValue))
  \/ ("a" <> "" /\ (current testcodec.Unmarshal (blocked "a") "a").2 = None /\
      (put ready (current testcodec.Unmarshal (blocked "a") "a").1).2
      = Some (ErrBolt bolt_errors.ErrIncompatibleValue))
  \/ ("a" <> "" /\ exists R data,
        put ready (current testcodec.Unmarshal (blocked "a") "a").1 = (Some R, None) /\
        (testcodec.Marshal R = (data, Some (ErrBolt bolt_errors.ErrIncompatibleValue))
         \/ (testcodec.Marshal R = (data, None) /\
             (bolt.len data > bolt.MaxValueSize)%Z /\
             ErrBolt bolt_errors.ErrIncompatibleValue
             = ErrBolt bolt_errors.ErrValueTooLarge)
         \/ (testcodec.Marshal R = (data, None) /\
             (exists items b, blocked "a" !! sandboxKey "a" = Some items /\
                items !! sandboxDataBucket = Some (bolt.Nested b)) /\
             ErrBolt bolt_errors.ErrIncompatibleValue
             = ErrBolt bolt_errors.ErrIncompatibleValue))).
Proof.
  apply (Save_errors testcodec.Marshal testcodec.Unmarshal
           "a" (put ready) (blocked "a") (blocked "a")).
  vm_compute. reflexivity.
Defined.

Lemma Save_region_after_witness :
  (put ready (current testcodec.Unmarshal (hollow "a") "a").1 = (None, None)
   /\ <[sandboxKey "a" := {[ sandboxDataBucket := bolt.Value "{R}" ]}]> (hollow "a")
      !! sandboxKey "a" = None)
  \/ (exists R data,
        put ready (current testcodec.Unmarshal (hollow "a") "a").1 = (Some R, None) /\
        testcodec.Marshal R = (data, None) /\
        <[sandboxKey "a" := {[ sandboxDataBucket := bolt.Value "{R}" ]}]> (hollow "a")
        !! sandboxKey "a"
        = Some (<[sandboxDataBucket := bolt.Value data]>
                  (default ∅ (hollow "a" !! sandboxKey "a")))).
Proof.
  apply (Save_region_after testcodec.Marshal testcodec.Unmarshal "a" (put ready) (hollow "a")).
  - discriminate.
  - vm_compute. reflexivity.
Defined.

Lemma Save_one_transaction_witness :
  exists body,
    events (tSave (PodSandbox "a") (fail (ErrForeign "boom")) (one "a"))
    = EvBegin true :: body ++ [EvRollback]
    /\ forallb (fun e => negb (isTxEvent e)) body = true.
Proof.
  apply (Save_one_transaction testcodec.Marshal testcodec.Unmarshal
           "a" (fail (ErrForeign "boom")) (one "a") (one "a") (Some (ErrForeign "boom"))).
  - discriminate.
  - vm_compute. reflexivity.
Defined.

Lemma Save_calls_updater_once_witness :
  length (List.filter isUpdater (events (tSave (PodSandbox "a") (put ready) (corrupt "a"))))
  = match (current testcodec.Unmarshal (corrupt "a") "a").2 with
    | None => 1
    | Some _ => 0
    end.
Proof.
  apply (Save_calls_updater_once testcodec.Marshal testcodec.Unmarshal
           "a" (put ready) (corrupt "a")).
  discriminate.
Defined.

Lemma Save_updater_sees_current_witness :
  tSave (PodSandbox "a") keepReady (one "a")
  = tSave (PodSandbox "a") (put (info (Some config0) PodSandboxState_NOTREADY)) (one "a").
Proof.
  apply (Save_updater_sees_current testcodec.Marshal testcodec.Unmarshal
           "a" keepReady (put (info (Some config0) PodSandboxState_NOTREADY)) (one "a")).
  vm_compute. reflexivity.
Defined.

Lemma Retrieve_stamps_bound_ID_witness :
  PodSandboxInfo.PodID (PodSandboxInfo.setPodID "a" ready) = "a"
  /\ exists data p0,
       stored (one "a") "a" = Some data /\
       testcodec.Unmarshal data = (Some p0, None) /\
       PodSandboxInfo.setPodID "a" ready = PodSandboxInfo.setPodID "a" p0.
Proof.
  apply (Retrieve_stamps_bound_ID testcodec.Unmarshal "a" (one "a")).
  vm_compute. reflexivity.
Defined.

Lemma Retrieve_passes_decoder_outcome_witness :
  result (tRetrieve (PodSandbox "a") (corrupt "a"))
  = Returns (None, Some (ErrForeign "invalid character")).
Proof.
  apply (proj1 (Retrieve_passes_decoder_outcome testcodec.Unmarshal
                  "a" (corrupt "a") "garbage" ltac:(discriminate)
                  ltac:(vm_compute; reflexivity))).
  reflexivity.
Defined.

Lemma Save_then_Save_witness :
  exists db1 db2,
    result (tSave (PodSandbox "a") (put ready) (hollow "a")) = Returns (db1, None)
    /\ result (tSave (PodSandbox "a") keepReady db1) = Returns (db2, None)
    /\ result (tRetrieve (PodSandbox "a") db2)
       = Returns (Some (PodSandboxInfo.setPodID "a"
                          (info (Some config0) PodSandboxState_NOTREADY)), None).
Proof.
  apply (Save_then_Save testcodec.Marshal testcodec.Unmarshal
           "a" ready ready "{R}" (info (Some config0) PodSandboxState_NOTREADY)
           (put ready) keepReady (hollow "a")).
  - discriminate.
  - reflexivity.
  - vm_compute. discriminate.
  - reflexivity.
  - exact notReady_valid.
  - vm_compute. exact I.
  - vm_compute. exact I.
  - reflexivity.
  - reflexivity.
Defined.

Lemma Save_keeps_consistent_witness :
  consistent testcodec.Unmarshal ∅
  /\ consistent testcodec.Unmarshal
       (<[sandboxKey "b" := {[ sandboxDataBucket := bolt.Value "{R}" ]}]> (one "a")).
Proof.
  apply (Save_keeps_consistent testcodec.Marshal testcodec.Unmarshal
           "b" (put ready) (one "a") _ None).
  - apply one_consistent. discriminate.
  - intros c R [= <-]. exact ready_valid.
  - vm_compute. reflexivity.
Defined.

Lemma getSandboxBucket_ensures_witness :
  exists tx',
    result (getSandboxBucket {| bolt.root := one "a"; bolt.writable := true |} "b" true false)
    = Returns (tx', (Some (sandboxKey "b"), None))
    /\ bolt.root tx' !! sandboxKey "b" = Some (default ∅ (one "a" !! sandboxKey "b"))
    /\ (forall k, k <> sandboxKey "b" -> bolt.root tx' !! k = one "a" !! k)
    /\ result (getSandboxBucket tx' "b" true false)
       = Returns (tx', (Some (sandboxKey "b"), None)).
Proof.
  apply (proj1 (getSandboxBucket_ensures
                  {| bolt.root := one "a"; bolt.writable := true |} "b" false
                  ltac:(reflexivity))).
Defined.

Lemma ListPodSandboxes_in_key_order_witness :
  (forall m, m ∈ [PodSandbox "a"; PodSandbox "b"] -> is_Some (mixed !! sandboxKey (GetID m)))
  /\ StronglySorted bytes_le (GetID <$> [PodSandbox "a"; PodSandbox "b"])
  /\ NoDup (GetID <$> [PodSandbox "a"; PodSandbox "b"]).
Proof.
  apply (ListPodSandboxes_in_key_order testcodec.Unmarshal None mixed).
  vm_compute. reflexivity.
Defined.

Lemma predicate_is_conjunction_witness :
  result (filterPodSandboxMeta testcodec.Unmarshal (PodSandbox "b") (Some readyFilter) two)
  = Returns (recordMatches "b" readyFilter
               (info (Some config0) PodSandboxState_NOTREADY) config0, None).
Proof.
  apply (predicate_is_conjunction testcodec.Unmarshal "b" readyFilter two "{N}").
  - discriminate.
  - vm_compute. reflexivity.
  - reflexivity.
  - reflexivity.
Defined.

Lemma ListPodSandboxes_selects_witness :
  result (tList (Some readyFilter) two)
  = Returns (accessor <$> List.filter (selects testcodec.Unmarshal (Some readyFilter) two)
                            (scanned two), None).
Proof.
  apply (ListPodSandboxes_selects testcodec.Unmarshal (Some readyFilter) two).
  exact two_holds.
Defined.

Lemma ListPodSandboxes_empty_namespace_witness :
  tList (Some unsetFilter) others
  = (Returns ([], None), [EvBegin false; EvCursor; EvRollback]).
Proof.
  apply (ListPodSandboxes_empty_namespace testcodec.Unmarshal (Some unsetFilter) others).
  intros k [items Hk]. unfold others in Hk.
  apply lookup_insert_Some in Hk as [[<- _]|[_ Hk]]; [reflexivity|].
  apply lookup_singleton_Some in Hk as [<- _]. reflexivity.
Defined.

Lemma ListPodSandboxes_by_ID_witness :
  result (tList (Some (idFilter "a")) mixed)
  = Returns (if recordMatches "a" (idFilter "a") ready config0
             then [PodSandbox "a"] else [], None).
Proof.
  apply (ListPodSandboxes_by_ID testcodec.Unmarshal "a" (idFilter "a") mixed "{R}").
  - discriminate.
  - reflexivity.
  - vm_compute. reflexivity.
  - reflexivity.
  - reflexivity.
Defined.

Lemma Save_then_List_witness :
  exists l l',
    result (tList None (one "a")) = Returns (l, None)
    /\ result (tList None (delete (sandboxKey "a") (one "a"))) = Returns (l', None)
    /\ (PodSandbox "a" ∈ l' <->
        (remove (current testcodec.Unmarshal (one "a") "a").1).1 <> None)
    /\ (forall j, j <> "a" -> PodSandbox j ∈ l' <-> PodSandbox j ∈ l).
Proof.
  apply (Save_then_List testcodec.Marshal testcodec.Unmarshal "a" remove (one "a")).
  - discriminate.
  - vm_compute. reflexivity.
Defined.

Lemma ListPodSandboxes_unnamed_region_witness :
  (exists l, result (tList None unnamed) = Returns (l, None) /\ PodSandbox "" ∈ l)
  /\ result (tList (Some readyFilter) unnamed) = Returns ([], Some ErrEmptyID).
Proof.
  destruct (ListPodSandboxes_unnamed_region testcodec.Marshal testcodec.Unmarshal unnamed)
    as (Hnil & Hf & _).
  - vm_compute. by eexists.
  - split; [exact Hnil|]. apply Hf. reflexivity.
Defined.

Lemma sandboxKey_layout_witness :
  accessor (sandboxKey "a") = PodSandbox "a"
  /\ sandboxKey (GetID (accessor "sandboxes/b")) = "sandboxes/b".
Proof.
  destruct (sandboxKey_layout "a") as (_ & Ha & _ & Hk).
  split; [exact Ha|]. apply Hk. reflexivity.
Defined.
